(** * DOJ file URL extractor: a shallow embedding of
    [src/extract_urls_browser.js] and the properties of its page walk.

    The script runs in a browser console.  It scans the rendered page for
    PDF links, accumulates them in a [Set], clicks the "Next page" control,
    waits, and repeats until no next page exists or a page ceiling is hit;
    then it sorts the set and offers it as a text file.

    Modelling choices:
    - a JavaScript string is the list of its UTF-16 code units;
    - a JavaScript [Set] of strings is the list of its elements in
      insertion order, without duplicates (iteration order is insertion
      order in JavaScript, and [Array.from] exposes it);
    - the counters are JavaScript numbers holding small non-negative
      integers, where double arithmetic is exact: they are modelled in [Z];
    - the page is the list of its HTML anchor elements in tree order, each
      with the attributes and properties the script reads;
    - the browser is an abstract state with the three things the script
      does to it: read the document, click an element, let time pass;
    - the [while (true)] loop takes fuel; 501 units are always enough. *)

From Stdlib Require Import ZArith Lia Ascii String DecimalString.
From stdpp Require Import base decidable list sorting.

Local Open Scope Z_scope.

(** ** JavaScript strings *)

Module JsString.

(** A string is its sequence of UTF-16 code units. *)
Definition jsstring := list N.

(** An ASCII literal of the source, as code units. *)
Fixpoint js (s : string) : jsstring :=
  match s with
  | EmptyString => []
  | String c s' => N_of_ascii c :: js s'
  end.

Definition eqb (s1 s2 : jsstring) : bool := bool_decide (s1 = s2).

(** [searchString] occurs in [s] at index 0. *)
Fixpoint starts_with (s searchString : jsstring) {struct searchString}
    : bool :=
  match searchString, s with
  | [], _ => true
  | _ :: _, [] => false
  | c :: search', d :: s' => N.eqb c d && starts_with s' search'
  end.

(** [String.prototype.includes(searchString)]: some index of [s], from 0
    on, is the start of an occurrence of [searchString]. *)
Fixpoint includes (s searchString : jsstring) : bool :=
  starts_with s searchString ||
  match s with
  | [] => false
  | _ :: s' => includes s' searchString
  end.

(** [String.prototype.endsWith(searchString)]: with [end] the length of
    [s] and [start = end - searchLength], false when [start < 0], else
    whether the code units of [s] from [start] to [end] are those of
    [searchString]. *)
Definition endsWith (s searchString : jsstring) : bool :=
  let len := Z.of_nat (length s) in
  let searchLength := Z.of_nat (length searchString) in
  let start := len - searchLength in
  if start <? 0 then false
  else eqb (drop (Z.to_nat start) s) searchString.

(** The abstract relation [IsLessThan] on two strings: the first position
    where the code units differ decides; if there is none the shorter
    string is the smaller. *)
Fixpoint is_less_than (px py : jsstring) : bool :=
  match px, py with
  | cx :: px', cy :: py' =>
      if N.ltb cx cy then true
      else if N.ltb cy cx then false
      else is_less_than px' py'
  | [], _ :: _ => true
  | _, [] => false
  end.

(** [SortCompare] on two strings with no comparator given, as
    [Array.prototype.sort()] uses it. *)
Definition sort_compare (x y : jsstring) : Z :=
  if is_less_than x y then -1
  else if is_less_than y x then 1
  else 0.

(** [x] may stand before [y] in a sorted array. *)
Definition le (x y : jsstring) : Prop := sort_compare x y <= 0.

#[global] Instance le_dec (x y : jsstring) : Decision (le x y) :=
  decide (sort_compare x y <= 0).

(** [Array.prototype.sort()] with the default comparator.  The language
    fixes the result (a stable sort by [SortCompare]) and leaves the
    algorithm open; a merge sort stands for it. *)
Definition sort (a : list jsstring) : list jsstring := merge_sort le a.

(** [Array.prototype.join(separator)]: the loop of the language
    definition, with the result string [R] and the index [k]. *)
Fixpoint join_from (k : nat) (R : jsstring) (a : list jsstring)
    (sep : jsstring) : jsstring :=
  match a with
  | [] => R
  | element :: a' =>
      let R := if (0 <? k)%nat then R ++ sep else R in
      join_from (S k) (R ++ element) a' sep
  end.

Definition join (a : list jsstring) (sep : jsstring) : jsstring :=
  join_from 0 [] a sep.

(** [Number::toString] on an integer of magnitude below 10^21: its decimal
    digits, with a minus sign when negative. *)
Definition number_to_string (n : Z) : jsstring :=
  js (NilZero.string_of_int (Z.to_int n)).

End JsString.

Import JsString.

(** ** The page *)

(** An HTML anchor element, with what the script reads of it: the [href]
    content attribute as written in the markup, the [href] property (the
    attribute resolved against the page address by the browser), the
    [aria-label] attribute and the class tokens. *)
Record Anchor := {
  attr_href : option jsstring;
  href : jsstring;
  aria_label : option jsstring;
  classList : list jsstring
}.

(** The rendered page: its anchor elements in tree order. *)
Definition Document := list Anchor.

(** The two selectors of the script: [a[href*="v"]] and
    [a[aria-label="v"]]. *)
Inductive Selector :=
| a_href_contains (v : jsstring)
| a_aria_label_is (v : jsstring).

Definition matches (sel : Selector) (e : Anchor) : bool :=
  match sel with
  | a_href_contains v =>
      match attr_href e with
      | Some h => negb (eqb v []) && includes h v
      | None => false
      end
  | a_aria_label_is v =>
      match aria_label e with
      | Some l => eqb l v
      | None => false
      end
  end.

Definition querySelectorAll (sel : Selector) (d : Document) : list Anchor :=
  List.filter (matches sel) d.

Definition querySelector (sel : Selector) (d : Document) : option Anchor :=
  List.find (matches sel) d.

(** [DOMTokenList.contains]. *)
Definition contains (tokens : list jsstring) (token : jsstring) : bool :=
  bool_decide (token ∈ tokens).

(** ** The URL set *)

(** A [Set] of strings: its elements in insertion order, each once. *)
Definition JsSet := list jsstring.

Definition set_empty : JsSet := [].

(** [Set.prototype.add]: a value already present is left where it is, a
    new one goes last. *)
Definition set_add (s : JsSet) (v : jsstring) : JsSet :=
  if decide (v ∈ s) then s else s ++ [v].

(** [Set.prototype.size]. *)
Definition set_size (s : JsSet) : Z := Z.of_nat (length s).

(** [Array.from(set)]: the elements in insertion order. *)
Definition array_from (s : JsSet) : list jsstring := s.

(** ** Values a function of the script may return *)

Inductive JsVal :=
| JNull
| JBool (b : bool).

(** [ToBoolean]. *)
Definition to_boolean (v : JsVal) : bool :=
  match v with
  | JNull => false
  | JBool b => b
  end.

(** ** The functions of the script *)

(** The test of [extractUrlsFromCurrentPage] on a link's URL. *)
Definition is_file_url (url : jsstring) : bool :=
  includes url (js "/epstein/files/") && endsWith url (js ".pdf").

(** The callback of [links.forEach]: it acts on the two variables it
    closes over, [allUrls] and [pageCount]. *)
Definition visit_link (acc : JsSet * Z) (link : Anchor) : JsSet * Z :=
  let '(allUrls, pageCount) := acc in
  let url := href link in
  if is_file_url url
  then (set_add allUrls url, pageCount + 1)
  else (allUrls, pageCount).

(** [extractUrlsFromCurrentPage], with [allUrls] passed in and out: it
    returns the updated set and [pageCount]. *)
Definition extractUrlsFromCurrentPage (allUrls : JsSet) (d : Document)
    : JsSet * Z :=
  let links := querySelectorAll (a_href_contains (js ".pdf")) d in
  fold_left visit_link links (allUrls, 0).

(** [hasNextPage]: the value of
    [nextButton && !nextButton.classList.contains("disabled")], where
    [nextButton] is an element or [null]. *)
Definition hasNextPage (d : Document) : JsVal :=
  match querySelector (a_aria_label_is (js "Next page")) d with
  | None => JNull
  | Some nextButton =>
      JBool (negb (contains (classList nextButton) (js "disabled")))
  end.

(** ** The browser *)

(** What the script observes and does.  [document] is the page as rendered
    now; [click] activates an element; [sleep] lets a number of
    milliseconds pass, during which the page may load new content.  Between
    two such actions the script runs without interruption, so the document
    does not change under it. *)
Class Browser (W : Type) := {
  document : W -> Document;
  click : Anchor -> W -> W;
  sleep : Z -> W -> W
}.

(** What a run does, in order. *)
Inductive Event :=
| ConsoleLog (msg : jsstring)
| Status (msg : jsstring)
| Extracted (pageCount : Z)
| NextPage (clicked : bool)
| Slept (ms : Z)
| Download (name content : jsstring).

(** How the loop was left. *)
Inductive Terminal :=
| Exhausted
| LimitReached.

Definition check_mark : jsstring := [0x2713%N].
Definition warning_sign : jsstring := [0x26A0%N].
Definition line_feed : jsstring := [10%N].

(** The template literal of the per-page status line. *)
Definition page_status (currentPage pageUrls size : Z) : jsstring :=
  js "Page " ++ number_to_string currentPage ++
  js ": Found " ++ number_to_string pageUrls ++
  js " files (Total: " ++ number_to_string size ++ js " unique URLs)".

Definition last_page_status : jsstring :=
  check_mark ++ js " Reached last page!".

Definition safety_limit_status : jsstring :=
  warning_sign ++ js " Safety limit reached (500 pages)".

Definition done_status (size : Z) : jsstring :=
  js "<br><strong>" ++ check_mark ++ js " DONE! Downloaded " ++
  number_to_string size ++ js " URLs</strong>".

Definition summary_log (size currentPage : Z) : jsstring :=
  js "Found " ++ number_to_string size ++ js " unique file URLs across " ++
  number_to_string currentPage ++ js " pages".

Section Script.

Context {W : Type} `{Browser W}.

(** The variables of the script, the browser it runs in and what it has
    done so far. *)
Record State := {
  allUrls : JsSet;
  currentPage : Z;
  foundFiles : Z;
  world : W;
  trace : list Event
}.

(** [goToNextPage]: the result and the browser afterwards. *)
Definition goToNextPage (w : W) : bool * W :=
  match querySelector (a_aria_label_is (js "Next page")) (document w) with
  | Some nextButton => (true, click nextButton w)
  | None => (false, w)
  end.

(** One pass through the loop body either leaves the loop or goes round. *)
Inductive Step :=
| Break (t : Terminal) (st : State)
| Continue (st : State).

Definition loop_body (st : State) : Step :=
  let '(urls, pageUrls) :=
    extractUrlsFromCurrentPage (allUrls st) (document (world st)) in
  let foundFiles := foundFiles st + pageUrls in
  let currentPage := currentPage st + 1 in
  let tr := trace st ++
    [Extracted pageUrls;
     Status (page_status currentPage pageUrls (set_size urls))] in
  if negb (to_boolean (hasNextPage (document (world st)))) then
    Break Exhausted
      {| allUrls := urls; currentPage := currentPage;
         foundFiles := foundFiles; world := world st;
         trace := tr ++ [Status last_page_status] |}
  else if currentPage >? 500 then
    Break LimitReached
      {| allUrls := urls; currentPage := currentPage;
         foundFiles := foundFiles; world := world st;
         trace := tr ++ [Status safety_limit_status] |}
  else
    let '(clicked, w) := goToNextPage (world st) in
    let w := sleep 2000 w in
    Continue
      {| allUrls := urls; currentPage := currentPage;
         foundFiles := foundFiles; world := w;
         trace := tr ++ [NextPage clicked; Slept 2000] |}.

(** [while (true) { ... }]. *)
Fixpoint main_loop (fuel : nat) (st : State) : option (Terminal * State) :=
  match fuel with
  | O => None
  | S fuel =>
      match loop_body st with
      | Break t st' => Some (t, st')
      | Continue st' => main_loop fuel st'
      end
  end.

(** The variables as the script declares them. *)
Definition initial (w : W) : State :=
  {| allUrls := set_empty; currentPage := 0; foundFiles := 0; world := w;
     trace := [ConsoleLog (js "Starting DOJ File URL Extraction...")] |}.

(** The text of the file offered for download. *)
Definition urlList (allUrls : JsSet) : jsstring :=
  join (sort (array_from allUrls)) line_feed.

(** What follows the loop: the download and the closing messages. *)
Definition finish (st : State) : State :=
  {| allUrls := allUrls st; currentPage := currentPage st;
     foundFiles := foundFiles st; world := world st;
     trace := trace st ++
       [Download (js "dataset8_urls.txt") (urlList (allUrls st));
        Status (done_status (set_size (allUrls st)));
        ConsoleLog (js "Complete! URLs saved to dataset8_urls.txt");
        ConsoleLog (summary_log (set_size (allUrls st)) (currentPage st))] |}.

(** The whole script, started in browser state [w]. *)
Definition script (fuel : nat) (w : W) : option (Terminal * State) :=
  match main_loop fuel (initial w) with
  | Some (t, st) => Some (t, finish st)
  | None => None
  end.

(** The browser state in which the loop, if it goes round, scans next. *)
Definition next_world (w : W) : W := sleep 2000 (snd (goToNextPage w)).

(** The browser state at the [n]-th scan after the one in [w]. *)
Fixpoint world_at (n : nat) (w : W) : W :=
  match n with
  | O => w
  | S n => world_at n (next_world w)
  end.

End Script.

Arguments State W : clear implicits.
Arguments Step W : clear implicits.

Arguments js : simpl never.

(** ** Two browsers to run the script in *)

(** A listing given as the list of its remaining pages: the first is on
    screen and a click brings the next one. *)
Definition paged_site : Browser (list Document) :=
  {| document := fun w => hd [] w;
     click := fun _ w => tl w;
     sleep := fun _ w => w |}.

(** A listing that shows the same page whatever is clicked. *)
Definition endless_site (d : Document) : Browser unit :=
  {| document := fun _ => d;
     click := fun _ w => w;
     sleep := fun _ w => w |}.

Definition file_link (url : string) : Anchor :=
  {| attr_href := Some (js url); href := js url;
     aria_label := None; classList := [] |}.

Definition next_control (classes : list jsstring) : Anchor :=
  {| attr_href := Some (js "?page=next"); href := js "https://host/?page=next";
     aria_label := Some (js "Next page"); classList := classes |}.

(** Two listings of two pages each, with the same two files: linked in a
    different order, on different pages, and some more than once. *)
Definition listing_a : list Document :=
  [ [file_link "https://host/epstein/files/a.pdf"; next_control []];
    [file_link "https://host/epstein/files/b.pdf";
     file_link "https://host/epstein/files/a.pdf";
     file_link "https://host/other/c.pdf"] ].

Definition listing_b : list Document :=
  [ [file_link "https://host/epstein/files/b.pdf";
     file_link "https://host/epstein/files/b.pdf"; next_control []];
    [file_link "https://host/epstein/files/a.pdf";
     next_control [js "disabled"]] ].

(** A page that always offers a next one. *)
Definition looping_page : Document :=
  [file_link "https://host/epstein/files/a.pdf"; next_control []].

(** ** Vocabulary of the statements *)

(** The file test, in words: the URL has ["/epstein/files/"] somewhere
    inside and [".pdf"] at its end. *)
Definition FileUrl (url : jsstring) : Prop :=
  (exists a b, url = a ++ js "/epstein/files/" ++ b) /\
  (exists a, url = a ++ js ".pdf").

(** The elements of [a] one after the other with [sep] between each two,
    and nothing after the last. *)
Fixpoint separated (a : list jsstring) (sep : jsstring) : jsstring :=
  match a with
  | [] => []
  | [x] => x
  | x :: a' => x ++ sep ++ separated a' sep
  end.

(** [x] is a beginning of [y], or at the first code unit where they differ
    the one of [x] is the smaller. *)
Definition lexicographic_le (x y : jsstring) : Prop :=
  (exists b, y = x ++ b) \/
  (exists p c d x' y',
     x = p ++ c :: x' /\ y = p ++ d :: y' /\ (c < d)%N).

(** The links of a page the scan looks at, and those among them that
    pass the file test (a URL linked twice appears twice). *)
Definition candidate_links (d : Document) : list Anchor :=
  querySelectorAll (a_href_contains (js ".pdf")) d.

Definition file_links (d : Document) : list Anchor :=
  List.filter (fun link => is_file_url (href link)) (candidate_links d).

(** The next-page control of a page, if it has one. *)
Definition next_control_of (d : Document) : option Anchor :=
  querySelector (a_aria_label_is (js "Next page")) d.

(** How many scans a trace records. *)
Definition extractions (tr : list Event) : nat :=
  length (List.filter
    (fun e => match e with Extracted _ => true | _ => false end) tr).

(** The contents of the files a trace offers for download, in order. *)
Fixpoint downloads (tr : list Event) : list jsstring :=
  match tr with
  | [] => []
  | Download _ content :: tr' => content :: downloads tr'
  | _ :: tr' => downloads tr'
  end.

(** The status line with which the loop is left. *)
Definition terminal_status (t : Terminal) : jsstring :=
  match t with
  | Exhausted => last_page_status
  | LimitReached => safety_limit_status
  end.

(** How many calls of [goToNextPage] a trace records, and the waits it
    records, in order. *)
Fixpoint clicks (tr : list Event) : nat :=
  match tr with
  | [] => 0
  | NextPage _ :: tr' => S (clicks tr')
  | _ :: tr' => clicks tr'
  end.

Fixpoint sleeps (tr : list Event) : list Z :=
  match tr with
  | [] => []
  | Slept ms :: tr' => ms :: sleeps tr'
  | _ :: tr' => sleeps tr'
  end.

(** The status lines of a trace, in order. *)
Fixpoint statuses (tr : list Event) : list jsstring :=
  match tr with
  | [] => []
  | Status msg :: tr' => msg :: statuses tr'
  | _ :: tr' => statuses tr'
  end.

(** A string without a line feed in it. *)
Definition line_feed_free (u : jsstring) : Prop := 10%N ∉ u.

(** The lines of a text: its pieces between line feeds (code unit 10),
    one more than there are line feeds. *)
Fixpoint lines (text : jsstring) : list jsstring :=
  match text with
  | [] => [[]]
  | c :: text' =>
      if N.eqb c 10 then [] :: lines text'
      else
        match lines text' with
        | line :: rest => (c :: line) :: rest
        | [] => [[c]]
        end
  end.

(** [x] stands strictly before [y] in the order of [sort]. *)
Definition strictly_before (x y : jsstring) : Prop :=
  is_less_than x y = true.

(** Every call of [goToNextPage] in the trace clicked the control. *)
Definition all_clicked (tr : list Event) : Prop :=
  forall clicked, NextPage clicked ∈ tr -> clicked = true.

Section Runs.

Context {W : Type} `{Browser W}.

Definition step_state (s : Step W) : State W :=
  match s with
  | Break _ st => st
  | Continue st => st
  end.

(** [iterates st n t st']: started in [st], the loop goes through its body
    [n] times and leaves by [t] in state [st']. *)
Inductive iterates : State W -> nat -> Terminal -> State W -> Prop :=
| iterates_break st t st' :
    loop_body st = Break t st' -> iterates st 1 t st'
| iterates_continue st st1 n t st' :
    loop_body st = Continue st1 -> iterates st1 n t st' ->
    iterates st (S n) t st'.

(** The states in which the loop body is entered during a run from [w]. *)
Inductive entered (w : W) : State W -> Prop :=
| entered_first : entered w (initial w)
| entered_next st st' :
    entered w st -> loop_body st = Continue st' -> entered w st'.

(** [url] is the address of a link passing the file test on one of the
    first [n] pages scanned from browser state [w] on. *)
Definition encountered (n : nat) (w : W) (url : jsstring) : Prop :=
  exists j link, (j < n)%nat /\
    link ∈ candidate_links (document (world_at j w)) /\
    href link = url /\ FileUrl url.

(** The file URLs linked on the first [n] pages scanned from [w] on, page
    by page, repetitions included. *)
Fixpoint file_urls_seen (n : nat) (w : W) : list jsstring :=
  match n with
  | O => []
  | S n =>
      map href (file_links (document w)) ++ file_urls_seen n (next_world w)
  end.

(** The set after the scans of the first [n] pages from [w] on, started
    with [s]. *)
Fixpoint urls_after (n : nat) (w : W) (s : JsSet) : JsSet :=
  match n with
  | O => s
  | S n =>
      urls_after n (next_world w)
        (extractUrlsFromCurrentPage s (document w)).1
  end.

(** How many pages a run started in [w] scans. *)
Definition pages_scanned (w : W) : nat :=
  match main_loop 501 (initial w) with
  | Some (_, st) => Z.to_nat (currentPage st)
  | None => 0
  end.

End Runs.

(** * Properties *)

(** ** Strings *)

Lemma starts_with_spec (s t : jsstring) :
  starts_with s t = true <-> exists b, s = t ++ b.
Proof.
  revert s; induction t as [|c t IH]; intros s; simpl.
  - split; [intros _; by exists s | done].
  - destruct s as [|d s].
    + split; [done | intros [b Hb]; discriminate].
    + rewrite andb_true_iff, N.eqb_eq, IH. split.
      * intros [-> [b ->]]. by exists b.
      * intros [b Hb]. injection Hb as -> ->. eauto.
Qed.

Lemma includes_spec (s t : jsstring) :
  includes s t = true <-> exists a b, s = a ++ t ++ b.
Proof.
  induction s as [|d s IH]; simpl; rewrite orb_true_iff, starts_with_spec.
  - split.
    + intros [[b Hb] | ?]; [by exists [], b | done].
    + intros (a & b & Hab). left. destruct a; [by exists b | done].
  - rewrite IH. split.
    + intros [[b Hb] | (a & b & ->)]; [by exists [], b | by exists (d :: a), b].
    + intros (a & b & Hab). destruct a as [|d' a]; simpl in Hab.
      * left. by exists b.
      * right. injection Hab as -> ->. eauto.
Qed.

Lemma endsWith_spec (s t : jsstring) :
  endsWith s t = true <-> exists a, s = a ++ t.
Proof.
  unfold endsWith, eqb. cbv zeta. split.
  - destruct (Z.ltb_spec (Z.of_nat (length s) - Z.of_nat (length t)) 0);
      [done |].
    intros Hd%bool_decide_eq_true.
    exists (take (Z.to_nat (Z.of_nat (length s) - Z.of_nat (length t))) s).
    rewrite <- Hd at 2. by rewrite take_drop.
  - intros [a ->]. rewrite length_app.
    destruct (Z.ltb_spec (Z.of_nat (length a + length t) - Z.of_nat (length t)) 0);
      [lia |].
    apply bool_decide_eq_true.
    replace (Z.to_nat _) with (length a) by lia.
    by rewrite drop_app_length.
Qed.

Lemma is_file_url_spec (url : jsstring) :
  is_file_url url = true <-> FileUrl url.
Proof.
  unfold is_file_url, FileUrl.
  by rewrite andb_true_iff, includes_spec, endsWith_spec.
Qed.

Lemma is_file_url_false (url : jsstring) :
  is_file_url url = false <-> ~ FileUrl url.
Proof.
  rewrite <- is_file_url_spec. by destruct (is_file_url url).
Qed.

(** ** The order of [sort] *)

Lemma is_less_than_irrefl (x : jsstring) : is_less_than x x = false.
Proof.
  induction x as [|c x IH]; simpl; [done |].
  by rewrite N.ltb_irrefl.
Qed.

Lemma is_less_than_asym (x y : jsstring) :
  is_less_than x y = true -> is_less_than y x = false.
Proof.
  revert y; induction x as [|c x IH]; intros [|d y]; simpl; try done.
  destruct (N.ltb_spec c d), (N.ltb_spec d c); try done; try lia.
  apply IH.
Qed.

Lemma is_less_than_connex (x y : jsstring) :
  is_less_than x y = false -> is_less_than y x = false -> x = y.
Proof.
  revert y; induction x as [|c x IH]; intros [|d y]; simpl; try done.
  destruct (N.ltb_spec c d), (N.ltb_spec d c); try done.
  intros Hxy Hyx. f_equal; [lia | by apply IH].
Qed.

Lemma is_less_than_trans (x y z : jsstring) :
  is_less_than x y = true -> is_less_than y z = true ->
  is_less_than x z = true.
Proof.
  revert y z; induction x as [|c x IH]; intros [|d y] [|e z]; simpl;
    try done.
  destruct (N.ltb_spec c d), (N.ltb_spec d c), (N.ltb_spec d e),
    (N.ltb_spec e d), (N.ltb_spec c e), (N.ltb_spec e c);
    try done; try lia.
  apply IH.
Qed.

Lemma le_not_less (x y : jsstring) : le x y <-> is_less_than y x = false.
Proof.
  unfold le, sort_compare.
  destruct (is_less_than x y) eqn:Hxy.
  - split; [intros _; by apply is_less_than_asym | lia].
  - destruct (is_less_than y x); split; (done || lia).
Qed.

#[global] Instance le_total : Total le.
Proof.
  intros x y. rewrite !le_not_less.
  destruct (is_less_than y x) eqn:Hyx; [right | by left].
  by apply is_less_than_asym.
Qed.

#[global] Instance le_antisym : AntiSymm (=) le.
Proof.
  intros x y. rewrite !le_not_less. intros ??. by apply is_less_than_connex.
Qed.

#[global] Instance le_trans : Transitive le.
Proof.
  intros x y z. rewrite !le_not_less. intros Hyx Hzy.
  destruct (is_less_than z x) eqn:Hzx; [| done].
  destruct (is_less_than y z) eqn:Hyz.
  - by rewrite (is_less_than_trans y z x) in Hyx.
  - rewrite (is_less_than_connex y z) in Hyx by done. congruence.
Qed.

Lemma sort_sorted (a : list jsstring) : Sorted le (sort a).
Proof. apply Sorted_merge_sort, _. Qed.

Lemma sort_perm (a : list jsstring) : sort a ≡ₚ a.
Proof. apply merge_sort_Permutation. Qed.

(** The sorted array depends on the elements only, not on where they
    stood before. *)
Lemma sort_unique (a b : list jsstring) : a ≡ₚ b -> sort a = sort b.
Proof.
  intros Hab. apply (Sorted_unique le); try apply sort_sorted.
  by rewrite !sort_perm.
Qed.

(** ** [join] *)

Lemma join_from_spec (a : list jsstring) (sep R : jsstring) (k : nat) :
  join_from k R a sep =
  R ++ (if (0 <? k)%nat then match a with [] => [] | _ => sep end else [])
    ++ separated a sep.
Proof.
  revert R k; induction a as [|x a IH]; intros R k; simpl join_from.
  - destruct (0 <? k)%nat; simpl; by rewrite app_nil_r.
  - rewrite IH. simpl (0 <? S k)%nat. cbv iota.
    destruct a as [|y a].
    + simpl. rewrite app_nil_r. destruct (0 <? k)%nat; simpl;
        by rewrite <- ?app_assoc.
    + change (separated (x :: y :: a) sep)
        with (x ++ sep ++ separated (y :: a) sep).
      destruct (0 <? k)%nat; simpl; by rewrite <- ?app_assoc.
Qed.

Lemma join_spec (a : list jsstring) (sep : jsstring) :
  join a sep = separated a sep.
Proof. unfold join. by rewrite join_from_spec. Qed.

(** ** The set *)

Lemma elem_of_set_add (s : JsSet) (v u : jsstring) :
  u ∈ set_add s v <-> u ∈ s \/ u = v.
Proof.
  unfold set_add. destruct (decide (v ∈ s)) as [Hin|Hin].
  - split; [by left | intros [?| ->]; done].
  - rewrite elem_of_app, list_elem_of_singleton. tauto.
Qed.

Lemma NoDup_set_add (s : JsSet) (v : jsstring) :
  NoDup s -> NoDup (set_add s v).
Proof.
  unfold set_add. destruct (decide (v ∈ s)) as [Hin|Hin]; [done |].
  intros Hs. apply NoDup_app. split_and!; [done | | apply NoDup_singleton].
  intros x Hx ->%list_elem_of_singleton. done.
Qed.

Lemma set_add_extends (s : JsSet) (v : jsstring) :
  exists added, set_add s v = s ++ added /\ (forall u, u ∈ added -> u = v).
Proof.
  unfold set_add. destruct (decide (v ∈ s)).
  - exists []. rewrite app_nil_r. split; [done | by intros u ?%elem_of_nil].
  - exists [v]. split; [done | by intros u ?%list_elem_of_singleton].
Qed.

Lemma set_add_present (s : JsSet) (v : jsstring) :
  v ∈ s -> set_add s v = s.
Proof. unfold set_add. intros ?. by rewrite decide_True. Qed.

(** ** One scan *)

Section Scan.

Implicit Types (links : list Anchor) (s : JsSet) (n : Z).

Lemma visit_links_elem_of links s n (u : jsstring) :
  u ∈ (fold_left visit_link links (s, n)).1 <->
  u ∈ s \/ exists link, link ∈ links /\ href link = u /\ FileUrl u.
Proof.
  revert s n; induction links as [|l links IH]; intros s n; simpl.
  - split; [by left | intros [? | (? & []%elem_of_nil & _)]; done].
  - destruct (is_file_url (href l)) eqn:Hl; rewrite IH.
    + rewrite elem_of_set_add. apply is_file_url_spec in Hl. split.
      * intros [[? | ->] | (k & ? & ? & ?)]; [by left | |].
        -- right. exists l. split_and!; [left | done | done].
        -- right. exists k. split_and!; [by right | done | done].
      * intros [? | (k & [-> | ?]%elem_of_cons & Hk & ?)].
        -- by left; left.
        -- left; right. done.
        -- right. by exists k.
    + apply is_file_url_false in Hl. split.
      * intros [? | (k & ? & ? & ?)]; [by left |].
        right. exists k. split_and!; [by right | done | done].
      * intros [? | (k & [-> | ?]%elem_of_cons & Hk & ?)]; [by left | |].
        -- congruence.
        -- right. by exists k.
Qed.

Lemma visit_links_count links s n :
  (fold_left visit_link links (s, n)).2 =
  n + Z.of_nat (length (List.filter (fun l => is_file_url (href l)) links)).
Proof.
  revert s n; induction links as [|l links IH]; intros s n; simpl; [lia |].
  destruct (is_file_url (href l)); rewrite IH; simpl length; lia.
Qed.

Lemma visit_links_extends links s n :
  exists added, (fold_left visit_link links (s, n)).1 = s ++ added /\
    Forall FileUrl added.
Proof.
  revert s n; induction links as [|l links IH]; intros s n; simpl.
  - exists []. by rewrite app_nil_r.
  - destruct (is_file_url (href l)) eqn:Hl; [| apply IH].
    destruct (set_add_extends s (href l)) as (a1 & -> & Ha1).
    destruct (IH (s ++ a1) (n + 1)) as (a2 & -> & Ha2).
    exists (a1 ++ a2). rewrite app_assoc. split; [done |].
    apply Forall_app. split; [| done].
    apply Forall_forall. intros u ->%Ha1. by apply is_file_url_spec.
Qed.

Lemma visit_links_NoDup links s n :
  NoDup s -> NoDup (fold_left visit_link links (s, n)).1.
Proof.
  revert s n; induction links as [|l links IH]; intros s n Hs; simpl;
    [done |].
  destruct (is_file_url (href l)); apply IH; [by apply NoDup_set_add | done].
Qed.

(** Links whose file URLs are all in the set already leave it as it is. *)
Lemma visit_links_present links s n :
  (forall link, link ∈ links -> is_file_url (href link) = true ->
     href link ∈ s) ->
  (fold_left visit_link links (s, n)).1 = s.
Proof.
  revert n; induction links as [|l links IH]; intros n Hin; simpl; [done |].
  destruct (is_file_url (href l)) eqn:Hl.
  - rewrite set_add_present by (apply Hin; [left | done]).
    apply IH. intros k Hk. apply Hin. by right.
  - apply IH. intros k Hk. apply Hin. by right.
Qed.

End Scan.

(** ** The loop body, case by case *)

Section Body.

Context {W : Type} `{Browser W}.

Implicit Types st : State W.

Lemma loop_body_eq st :
  loop_body st =
  let r := extractUrlsFromCurrentPage (allUrls st) (document (world st)) in
  let tr := trace st ++
    [Extracted r.2;
     Status (page_status (currentPage st + 1) r.2 (set_size r.1))] in
  if negb (to_boolean (hasNextPage (document (world st)))) then
    Break Exhausted
      {| allUrls := r.1; currentPage := currentPage st + 1;
         foundFiles := foundFiles st + r.2; world := world st;
         trace := tr ++ [Status last_page_status] |}
  else if currentPage st + 1 >? 500 then
    Break LimitReached
      {| allUrls := r.1; currentPage := currentPage st + 1;
         foundFiles := foundFiles st + r.2; world := world st;
         trace := tr ++ [Status safety_limit_status] |}
  else
    Continue
      {| allUrls := r.1; currentPage := currentPage st + 1;
         foundFiles := foundFiles st + r.2;
         world := next_world (world st);
         trace := tr ++ [NextPage (goToNextPage (world st)).1; Slept 2000] |}.
Proof.
  unfold loop_body, next_world.
  destruct (extractUrlsFromCurrentPage _ _) as [urls n].
  by destruct (goToNextPage _) as [clicked w].
Qed.

Lemma loop_body_allUrls st :
  allUrls (step_state (loop_body st)) =
  (extractUrlsFromCurrentPage (allUrls st) (document (world st))).1.
Proof.
  rewrite loop_body_eq. cbv zeta.
  by repeat (case_match; simpl).
Qed.

Lemma loop_body_currentPage st :
  currentPage (step_state (loop_body st)) = currentPage st + 1.
Proof.
  rewrite loop_body_eq. cbv zeta.
  by repeat (case_match; simpl).
Qed.

(** When the page has a next-page control that is not disabled,
    [goToNextPage] finds the control and clicks it. *)
Lemma goToNextPage_after_hasNextPage (w : W) :
  to_boolean (hasNextPage (document w)) = true ->
  exists nextButton,
    next_control_of (document w) = Some nextButton /\
    goToNextPage w = (true, click nextButton w).
Proof.
  unfold hasNextPage, goToNextPage, next_control_of.
  destruct (querySelector _ _) as [b|]; [| done].
  intros _. by exists b.
Qed.

Lemma loop_body_trace st :
  exists rest,
    trace (step_state (loop_body st)) =
    trace st ++
    [Extracted
       (extractUrlsFromCurrentPage (allUrls st) (document (world st))).2;
     Status (page_status (currentPage st + 1)
       (extractUrlsFromCurrentPage (allUrls st) (document (world st))).2
       (set_size
         (extractUrlsFromCurrentPage (allUrls st) (document (world st))).1))]
    ++ rest /\
    extractions rest = 0%nat /\ downloads rest = [] /\ all_clicked rest.
Proof.
  rewrite loop_body_eq. cbv zeta.
  destruct (to_boolean _) eqn:Hnext; [destruct (_ >? _) |]; simpl;
    rewrite <- app_assoc; eexists;
    (split; [reflexivity |]); (split; [reflexivity |]);
    (split; [reflexivity |]);
    intros c Hc; repeat apply elem_of_cons in Hc as [Hc | Hc];
    try discriminate; try by apply elem_of_nil in Hc.
  injection Hc as ->.
  by destruct (goToNextPage_after_hasNextPage _ Hnext) as (b & _ & ->).
Qed.

Lemma loop_body_continue st st1 :
  loop_body st = Continue st1 ->
  to_boolean (hasNextPage (document (world st))) = true /\
  currentPage st + 1 <= 500 /\
  world st1 = next_world (world st).
Proof.
  rewrite loop_body_eq. cbv zeta.
  destruct (to_boolean _); simpl; [| done].
  destruct (Z.gtb_spec (currentPage st + 1) 500); [done |].
  intros [= <-]. simpl. split_and!; [done | lia | done].
Qed.

Lemma loop_body_break st t st' :
  loop_body st = Break t st' ->
  world st' = world st /\
  match t with
  | Exhausted => to_boolean (hasNextPage (document (world st))) = false
  | LimitReached =>
      to_boolean (hasNextPage (document (world st))) = true /\
      500 < currentPage st + 1
  end.
Proof.
  rewrite loop_body_eq. cbv zeta.
  destruct (to_boolean _); simpl.
  - destruct (Z.gtb_spec (currentPage st + 1) 500); [| done].
    intros [= <- <-]. simpl. split_and!; [done | done | lia].
  - by intros [= <- <-].
Qed.

End Body.

(** ** The loop *)

Section Loop.

Context {W : Type} `{Browser W}.

Implicit Types st : State W.

Lemma iterates_main_loop st n t st' (fuel : nat) :
  iterates st n t st' -> (n <= fuel)%nat ->
  main_loop fuel st = Some (t, st').
Proof.
  intros Hit; revert fuel.
  induction Hit as [st t st' Hb | st st1 n t st' Hc _ IH]; intros fuel Hn.
  - destruct fuel as [|fuel]; [lia |]. simpl. by rewrite Hb.
  - destruct fuel as [|fuel]; [lia |]. simpl. rewrite Hc.
    apply IH. lia.
Qed.

Lemma main_loop_iterates (fuel : nat) st t st' :
  main_loop fuel st = Some (t, st') ->
  exists n, (n <= fuel)%nat /\ iterates st n t st'.
Proof.
  revert st; induction fuel as [|fuel IH]; intros st; simpl; [done |].
  destruct (loop_body st) as [t1 st1 | st1] eqn:Hb.
  - intros [= -> ->]. exists 1%nat. split; [lia | by constructor].
  - intros (n & Hn & Hit)%IH. exists (S n). split; [lia |].
    by econstructor.
Qed.

(** The loop always ends: the page cursor grows by one each time round and
    the body leaves the loop once it is past 500. *)
Lemma iterates_total_measure (m : nat) st :
  (Z.to_nat (500 - currentPage st) <= m)%nat ->
  exists n t st', (n <= S m)%nat /\ iterates st n t st'.
Proof.
  revert st; induction m as [|m IH]; intros st Hm.
  - destruct (loop_body st) as [t1 st1 | st1] eqn:Hb.
    + exists 1%nat, t1, st1. split; [lia | by constructor].
    + apply loop_body_continue in Hb as (_ & ? & _). lia.
  - destruct (loop_body st) as [t1 st1 | st1] eqn:Hb.
    + exists 1%nat, t1, st1. split; [lia | by constructor].
    + destruct (IH st1) as (n & t & st' & Hn & Hit).
      * pose proof (loop_body_currentPage st) as Hcp.
        rewrite Hb in Hcp. simpl in Hcp. rewrite Hcp.
        apply loop_body_continue in Hb as (_ & ? & _). lia.
      * exists (S n), t, st'. split; [lia | by econstructor].
Qed.

Lemma iterates_total st :
  exists n t st',
    (n <= S (Z.to_nat (500 - currentPage st)))%nat /\ iterates st n t st'.
Proof. by apply iterates_total_measure. Qed.

(** What the hypothesis of having gone round [n] times says about the
    pages seen on the way. *)
Lemma iterates_pages st n t st' :
  iterates st n t st' ->
  (1 <= n)%nat /\
  currentPage st' = currentPage st + Z.of_nat n /\
  world st' = world_at (n - 1) (world st) /\
  (forall j, (j + 1 < n)%nat ->
     to_boolean (hasNextPage (document (world_at j (world st)))) = true /\
     currentPage st + Z.of_nat j + 1 <= 500) /\
  match t with
  | Exhausted =>
      to_boolean
        (hasNextPage (document (world_at (n - 1) (world st)))) = false
  | LimitReached =>
      to_boolean
        (hasNextPage (document (world_at (n - 1) (world st)))) = true /\
      500 < currentPage st + Z.of_nat n
  end.
Proof.
  induction 1 as [st t st' Hb | st st1 n t st' Hc Hit IH].
  - pose proof (loop_body_currentPage st) as Hcp.
    rewrite Hb in Hcp. simpl in Hcp.
    apply loop_body_break in Hb as [Hw Ht].
    split_and!; [lia | lia | done | intros; lia |].
    simpl. destruct t; [done |]. split; [tauto | lia].
  - pose proof (loop_body_currentPage st) as Hcp.
    rewrite Hc in Hcp. simpl in Hcp.
    apply loop_body_continue in Hc as (Hnext & Hcur & Hw).
    destruct IH as (Hn & Hcp' & Hw' & Hj & Ht).
    rewrite Hw in Hw', Hj, Ht. rewrite Hcp in Hcp', Hj, Ht.
    replace (S n - 1)%nat with (S (n - 1)) by lia.
    split_and!; [lia | lia | done | |].
    + intros [|j] Hlt; simpl; [split; [done | lia] |].
      destruct (Hj j) as [? ?]; [lia |]. split; [done | lia].
    + simpl. destruct t; [done |]. split; [tauto | lia].
Qed.

Lemma extractions_app (tr1 tr2 : list Event) :
  extractions (tr1 ++ tr2) = (extractions tr1 + extractions tr2)%nat.
Proof. unfold extractions. by rewrite List.filter_app, length_app. Qed.

Lemma downloads_app (tr1 tr2 : list Event) :
  downloads (tr1 ++ tr2) = downloads tr1 ++ downloads tr2.
Proof.
  induction tr1 as [|e tr1 IH]; simpl; [done |].
  destruct e; simpl; by rewrite IH.
Qed.

Lemma all_clicked_app (tr1 tr2 : list Event) :
  all_clicked tr1 -> all_clicked tr2 -> all_clicked (tr1 ++ tr2).
Proof.
  intros H1 H2 c [?|?]%elem_of_app; [by apply H1 | by apply H2].
Qed.

(** What a run of [n] rounds adds to the trace: [n] scans, and calls of
    [goToNextPage] that all clicked. *)
Lemma iterates_trace st n t st' :
  iterates st n t st' ->
  exists during,
    trace st' = trace st ++ during /\
    extractions during = n /\ downloads during = [] /\ all_clicked during.
Proof.
  induction 1 as [st t st' Hb | st st1 n t st' Hc Hit IH].
  - destruct (loop_body_trace st) as (rest & Htr & Hex & Hdl & Hcl).
    rewrite Hb in Htr. cbn [step_state] in Htr.
    eexists. split; [exact Htr |]. split_and!.
    + rewrite extractions_app, Hex. done.
    + rewrite downloads_app, Hdl. done.
    + apply all_clicked_app; [| done].
      intros c Hc. repeat apply elem_of_cons in Hc as [Hc | Hc];
        try discriminate. by apply elem_of_nil in Hc.
  - destruct (loop_body_trace st) as (rest & Htr & Hex & Hdl & Hcl).
    rewrite Hc in Htr. cbn [step_state] in Htr.
    destruct IH as (during & Htr' & Hex' & Hdl' & Hcl').
    eexists. split; [by rewrite Htr', Htr, <- app_assoc |]. split_and!.
    + rewrite !extractions_app, Hex, Hex'. simpl. lia.
    + rewrite !downloads_app, Hdl, Hdl'. done.
    + repeat apply all_clicked_app; try done.
      intros c Hin. repeat apply elem_of_cons in Hin as [Hin | Hin];
        try discriminate. by apply elem_of_nil in Hin.
Qed.

(** The last thing the loop does is say how it is left. *)
Lemma iterates_terminal_status st n t st' :
  iterates st n t st' ->
  exists before, trace st' = before ++ [Status (terminal_status t)].
Proof.
  induction 1 as [st t st' Hb | st st1 n t st' Hc Hit IH]; [| done].
  rewrite loop_body_eq in Hb. cbv zeta in Hb.
  destruct (negb _); [| destruct (_ >? _)]; [| | done];
    injection Hb as <- <-; by eexists.
Qed.

Lemma extract_elem_of (s : JsSet) (d : Document) (u : jsstring) :
  u ∈ (extractUrlsFromCurrentPage s d).1 <->
  u ∈ s \/
  exists link, link ∈ candidate_links d /\ href link = u /\ FileUrl u.
Proof. apply visit_links_elem_of. Qed.

Lemma encountered_S (n : nat) (w : W) (u : jsstring) :
  encountered (S n) w u <->
  (exists link,
     link ∈ candidate_links (document w) /\ href link = u /\ FileUrl u) \/
  encountered n (next_world w) u.
Proof.
  unfold encountered. split.
  - intros ([|j] & link & Hj & Hin & Hu & Hf); simpl in Hin.
    + left. by exists link.
    + right. exists j, link. split_and!; [lia | done | done | done].
  - intros [(link & Hin & Hu & Hf) | (j & link & Hj & Hin & Hu & Hf)].
    + exists 0%nat, link. split_and!; [lia | done | done | done].
    + exists (S j), link. split_and!; [lia | done | done | done].
Qed.

Lemma encountered_seen (n : nat) (w : W) (u : jsstring) :
  encountered n w u <-> u ∈ file_urls_seen n w.
Proof.
  revert w; induction n as [|n IH]; intros w.
  - split; [intros (j & _ & ? & _); lia | by intros ?%elem_of_nil].
  - rewrite encountered_S, IH. simpl. rewrite elem_of_app.
    apply or_iff_compat_r. unfold file_links.
    rewrite list_elem_of_fmap. split.
    + intros (link & Hin & Hu & Hf). exists link. split; [done |].
      apply list_elem_of_In, List.filter_In. split.
      * by apply list_elem_of_In.
      * apply is_file_url_spec. by rewrite Hu.
    + intros (link & -> & Hin).
      apply list_elem_of_In, List.filter_In in Hin as [Hin Hf].
      exists link. split_and!; [by apply list_elem_of_In | done |].
      by apply is_file_url_spec.
Qed.

(** What a run of [n] rounds does to the set: it extends it at the end,
    by file URLs only, keeps it free of duplicates, and leaves in it what
    was there and the file URLs linked on the [n] pages scanned. *)
Lemma iterates_allUrls st n t st' :
  iterates st n t st' ->
  (exists added,
     allUrls st' = allUrls st ++ added /\ Forall FileUrl added) /\
  (NoDup (allUrls st) -> NoDup (allUrls st')) /\
  (forall u, u ∈ allUrls st' <->
     u ∈ allUrls st \/ encountered n (world st) u).
Proof.
  induction 1 as [st t st' Hb | st st1 n t st' Hc Hit IH].
  - pose proof (loop_body_allUrls st) as Hu. rewrite Hb in Hu. simpl in Hu.
    rewrite Hu. split_and!.
    + apply visit_links_extends.
    + apply visit_links_NoDup.
    + intros u. rewrite extract_elem_of, encountered_S.
      unfold encountered. split; [tauto |].
      intros [? | [? | (j & ? & ? & _)]]; [tauto | tauto | lia].
  - pose proof (loop_body_allUrls st) as Hu. rewrite Hc in Hu. simpl in Hu.
    apply loop_body_continue in Hc as (_ & _ & Hw).
    destruct IH as ((a2 & Ha2 & Hf2) & Hnd & Hin).
    rewrite Hu, Hw in *.
    destruct (visit_links_extends (candidate_links (document (world st)))
      (allUrls st) 0) as (a1 & Ha1 & Hf1).
    unfold extractUrlsFromCurrentPage in *. fold (candidate_links (document (world st))) in *.
    split_and!.
    + exists (a1 ++ a2). rewrite Ha2, Ha1, app_assoc. split; [done |].
      by apply Forall_app.
    + intros Hs. by apply Hnd, visit_links_NoDup.
    + intros u. rewrite Hin, visit_links_elem_of, encountered_S. tauto.
Qed.

End Loop.

(** ** Whole runs *)

Section Run.

Context {W : Type} `{Browser W}.

Implicit Types (st : State W) (w : W).

Lemma iterates_short_fuel st n t st' (fuel : nat) :
  iterates st n t st' -> (fuel < n)%nat -> main_loop fuel st = None.
Proof.
  intros Hit; revert fuel.
  induction Hit as [st t st' Hb | st st1 n t st' Hc _ IH]; intros fuel Hn.
  - by replace fuel with 0%nat by lia.
  - destruct fuel as [|fuel]; [done |]. simpl. rewrite Hc.
    apply IH. lia.
Qed.

Lemma run_total w :
  exists n t st, (n <= 501)%nat /\ iterates (initial w) n t st.
Proof.
  destruct (iterates_total (initial w)) as (n & t & st & Hn & Hit).
  exists n, t, st. split; [| done]. simpl in Hn. lia.
Qed.

Lemma script_iterates w n t st (fuel : nat) :
  iterates (initial w) n t st -> (n <= fuel)%nat ->
  script fuel w = Some (t, finish st).
Proof.
  intros Hit Hn. unfold script.
  by rewrite (iterates_main_loop _ _ _ _ _ Hit Hn).
Qed.

Lemma pages_scanned_iterates w n t st :
  iterates (initial w) n t st -> pages_scanned w = n.
Proof.
  intros Hit. unfold pages_scanned.
  destruct (run_total w) as (n' & t' & st' & Hn' & Hit').
  pose proof (iterates_main_loop _ _ _ _ 501 Hit' Hn') as Hrun.
  destruct (Nat.le_gt_cases n 501) as [Hn | Hn].
  - rewrite (iterates_main_loop _ _ _ _ 501 Hit Hn).
    apply iterates_pages in Hit as (_ & -> & _). simpl. lia.
  - by rewrite (iterates_short_fuel _ _ _ _ 501 Hit Hn) in Hrun.
Qed.

(** The set holds file URLs only, each once, whenever the body is
    entered. *)
Lemma entered_allUrls w st :
  entered w st -> Forall FileUrl (allUrls st) /\ NoDup (allUrls st).
Proof.
  induction 1 as [| st st' _ [IHf IHn] Hc].
  - split; [constructor | apply NoDup_nil_2].
  - pose proof (loop_body_allUrls st) as Hu. rewrite Hc in Hu. simpl in Hu.
    rewrite Hu. split; [| by apply visit_links_NoDup].
    destruct (visit_links_extends (candidate_links (document (world st)))
      (allUrls st) 0) as (added & Ha & Hf).
    unfold extractUrlsFromCurrentPage. fold (candidate_links (document (world st))).
    rewrite Ha. by apply Forall_app.
Qed.

Lemma finish_trace st :
  extractions (trace (finish st)) = extractions (trace st) /\
  downloads (trace (finish st)) =
    downloads (trace st) ++ [urlList (allUrls st)] /\
  (all_clicked (trace st) -> all_clicked (trace (finish st))).
Proof.
  unfold finish. cbn [trace].
  rewrite extractions_app, downloads_app. split_and!.
  - apply Nat.add_0_r.
  - done.
  - intros Hcl. apply all_clicked_app; [done |].
    intros c Hc. repeat apply elem_of_cons in Hc as [Hc | Hc];
      try discriminate. by apply elem_of_nil in Hc.
Qed.

End Run.

(** ** The order, in words *)

Lemma lexicographic_le_cons (c : N) (x y : jsstring) :
  lexicographic_le (c :: x) (c :: y) <-> lexicographic_le x y.
Proof.
  unfold lexicographic_le. split.
  - intros [[b Hb] | (p & c' & d & x' & y' & Hx & Hy & Hlt)].
    + left. exists b. by injection Hb.
    + destruct p as [|e p]; simpl in *.
      * injection Hx as -> ->. injection Hy as -> ->. lia.
      * right. exists p, c', d, x', y'.
        injection Hx as -> ->. by injection Hy as ->.
  - intros [[b ->] | (p & c' & d & x' & y' & -> & -> & Hlt)].
    + left. by exists b.
    + right. by exists (c :: p), c', d, x', y'.
Qed.

Lemma le_lexicographic (x y : jsstring) : le x y <-> lexicographic_le x y.
Proof.
  rewrite le_not_less.
  revert y; induction x as [|c x IH]; intros [|d y]; simpl.
  - split; [intros _; left; by exists [] | done].
  - split; [intros _; left; by exists (d :: y) | done].
  - split; [done |].
    intros [[b Hb] | (p & c' & d' & x' & y' & _ & Hy & _)]; [done |].
    by destruct p.
  - destruct (N.ltb_spec d c) as [Hdc | Hdc];
      [| destruct (N.ltb_spec c d) as [Hcd | Hcd]].
    + split; [done |].
      intros [[b Hb] | (p & c' & d' & x' & y' & Hx & Hy & Hlt)].
      * injection Hb as -> _. lia.
      * destruct p as [|e p]; simpl in *.
        -- injection Hx as -> _. injection Hy as -> _. lia.
        -- injection Hx as -> _. injection Hy as -> _. lia.
    + split; [intros _ | done]. right. by exists [], c, d, x, y.
    + assert (c = d) as -> by lia.
      by rewrite IH, lexicographic_le_cons.
Qed.

Lemma Sorted_le_lexicographic (a : list jsstring) :
  Sorted le a -> Sorted lexicographic_le a.
Proof.
  induction 1 as [|x a _ IH Hhd]; constructor; [done |].
  destruct Hhd; constructor. by apply le_lexicographic.
Qed.

(** ** The text of the file *)

Lemma separated_snoc (a : list jsstring) (x sep : jsstring) :
  exists before, separated (a ++ [x]) sep = before ++ x.
Proof.
  induction a as [|y a [before IH]].
  - by exists [].
  - destruct a as [|z a].
    + exists (y ++ sep). simpl. by rewrite <- app_assoc.
    + exists (y ++ sep ++ before).
      change (separated ((y :: z :: a) ++ [x]) sep)
        with (y ++ sep ++ separated ((z :: a) ++ [x]) sep).
      by rewrite IH, <- !app_assoc.
Qed.

(** * The properties of the specification *)

(** ** One scan of a page *)

Example is_file_url_included :
  is_file_url (js "https://host/epstein/files/abc.pdf") = true.
Proof. reflexivity. Qed.

Example is_file_url_wrong_suffix :
  is_file_url (js "https://host/epstein/files/abc.pdf.html") = false.
Proof. reflexivity. Qed.

Example is_file_url_wrong_path :
  is_file_url (js "https://host/other/abc.pdf") = false.
Proof. reflexivity. Qed.

(** C1. Filter correctness.  Among the links a scan looks at, the URL of a
    link goes into the set exactly when it has ["/epstein/files/"] inside
    and [".pdf"] at its end: after the scan the set holds what it held
    before and the URLs of the candidate links that pass both tests, a link
    failing either test adds nothing, and the number the scan returns is
    the number of candidate links that pass both tests. *)
Theorem C1_filter_correctness (allUrls : JsSet) (d : Document) :
  let links := querySelectorAll (a_href_contains (js ".pdf")) d in
  let r := extractUrlsFromCurrentPage allUrls d in
  (forall link, link ∈ links ->
     (FileUrl (href link) -> href link ∈ r.1) /\
     (~ FileUrl (href link) -> (href link ∈ r.1 <-> href link ∈ allUrls))) /\
  (forall url, url ∈ r.1 <->
     url ∈ allUrls \/
     exists link, link ∈ links /\ href link = url /\ FileUrl url) /\
  r.2 = Z.of_nat (length
    (List.filter (fun link => is_file_url (href link)) links)) /\
  (forall url, is_file_url url = true <-> FileUrl url).
Proof.
  intros links r. split_and!.
  - intros link Hin. split.
    + intros Hf. apply extract_elem_of. right. by exists link.
    + intros Hf. unfold r. rewrite extract_elem_of. split; [| tauto].
      intros [? | (_ & _ & _ & ?)]; done.
  - intros url. apply extract_elem_of.
  - unfold r, extractUrlsFromCurrentPage. fold links.
    rewrite visit_links_count. lia.
  - apply is_file_url_spec.
Qed.

(** C5, as the claim states it, fails on a link the selector does not
    select.  The browser drops tabs and line breaks when it resolves an
    address, so an anchor written with a tab inside [".pdf"] has an [href]
    property that passes both tests while its [href] attribute does not
    contain [".pdf"]: it is a link of the page that matches both filter
    conditions, and the scan does not count it. *)
Lemma C5_unselected_link_not_counted :
  let link :=
    {| attr_href := Some (js "/epstein/files/a.p" ++ [9%N] ++ js "df");
       href := js "https://host/epstein/files/a.pdf";
       aria_label := None; classList := [] |} in
  FileUrl (href link) /\
  is_file_url (href link) = true /\
  extractUrlsFromCurrentPage [] [link] = ([], 0).
Proof. split_and!; [by apply is_file_url_spec | done | done]. Qed.

(** C5, amended.  The number a scan returns is the number of links that
    the selector [a[href*=".pdf"]] finds on the page and that pass both
    tests, whatever the set already holds (a URL already in the set is
    counted again, as is a URL linked twice), and the status line the loop
    body emits right after the scan reads "Page", the incremented page
    cursor, ": Found", this number, " files (Total: ", the number of
    elements of the set after the scan, " unique URLs)". *)
Theorem C5_per_page_count {W : Type} `{Browser W} (st : State W) :
  let d := document (world st) in
  let links := querySelectorAll (a_href_contains (js ".pdf")) d in
  let pageCount := Z.of_nat (length
    (List.filter (fun link => is_file_url (href link)) links)) in
  let r := extractUrlsFromCurrentPage (allUrls st) d in
  r.2 = pageCount /\
  (forall other : JsSet, (extractUrlsFromCurrentPage other d).2 = pageCount) /\
  (forall url, is_file_url url = true <-> FileUrl url) /\
  (exists rest,
     trace (step_state (loop_body st)) =
     trace st ++
     [Extracted pageCount;
      Status
        (js "Page " ++ number_to_string (currentPage st + 1) ++
         js ": Found " ++ number_to_string pageCount ++
         js " files (Total: " ++ number_to_string (Z.of_nat (length r.1)) ++
         js " unique URLs)")]
     ++ rest) /\
  allUrls (step_state (loop_body st)) = r.1 /\
  extractUrlsFromCurrentPage
    [js "https://host/epstein/files/a.pdf"]
    [file_link "https://host/epstein/files/a.pdf";
     file_link "https://host/epstein/files/a.pdf"] =
  ([js "https://host/epstein/files/a.pdf"], 2) /\
  trace (step_state (@loop_body _ paged_site
    {| allUrls := [js "https://host/epstein/files/a.pdf"];
       currentPage := 41; foundFiles := 97;
       world :=
         [[file_link "https://host/epstein/files/a.pdf";
           file_link "https://host/epstein/files/a.pdf";
           next_control []]];
       trace := [] |})) =
  [Extracted 2;
   Status (js "Page 42: Found 2 files (Total: 1 unique URLs)");
   NextPage true; Slept 2000] /\
  number_to_string 501 = js "501".
Proof.
  intros d links pageCount r.
  assert (Hcount : forall s : JsSet,
    (extractUrlsFromCurrentPage s d).2 = pageCount).
  { intros s. unfold extractUrlsFromCurrentPage. fold links.
    rewrite visit_links_count. unfold pageCount. lia. }
  split_and!; [apply Hcount | apply Hcount | apply is_file_url_spec | |
    apply loop_body_allUrls | reflexivity | reflexivity | reflexivity].
  destruct (loop_body_trace st) as (rest & Htr & _).
  exists rest. unfold r, d. by rewrite <- (Hcount (allUrls st)).
Qed.

(** C6. Idempotent accumulation.  Scanning the same page content a second
    time right after the first leaves the set as the first scan left it,
    so its size does not change, whatever the page and whatever the set
    held before. *)
Theorem C6_rescan_idempotent (allUrls : JsSet) (d : Document) :
  let once := (extractUrlsFromCurrentPage allUrls d).1 in
  let twice := (extractUrlsFromCurrentPage once d).1 in
  twice = once /\ set_size twice = set_size once.
Proof.
  intros once twice.
  assert (twice = once) as ->; [| done].
  apply visit_links_present. intros link Hin Hf.
  apply extract_elem_of. right. exists link.
  split_and!; [done | done | by apply is_file_url_spec].
Qed.

(** The first anchor labelled "Next page", if the page has one. *)
Lemma next_control_of_spec (d : Document) :
  match next_control_of d with
  | Some nextButton =>
      nextButton ∈ d /\ aria_label nextButton = Some (js "Next page")
  | None => forall e, e ∈ d -> aria_label e <> Some (js "Next page")
  end.
Proof.
  unfold next_control_of, querySelector.
  destruct (List.find _ d) as [b|] eqn:Hfind.
  - apply List.find_some in Hfind as [Hin Hm]. split.
    + by apply list_elem_of_In.
    + simpl in Hm. destruct (aria_label b) as [l|]; [| done].
      by apply bool_decide_eq_true in Hm as ->.
  - intros e Hin%list_elem_of_In He.
    pose proof (List.find_none _ _ Hfind e Hin) as Hm. simpl in Hm.
    rewrite He in Hm. unfold eqb in Hm.
    by rewrite bool_decide_eq_false in Hm.
Qed.

(** C7, as the claim states it, fails on a page without the control:
    [hasNextPage] returns [null] there, not [false]. *)
Lemma C7_absent_control_returns_null :
  next_control_of [] = None /\
  hasNextPage [] = JNull /\
  hasNextPage [] <> JBool false.
Proof. done. Qed.

(** C7, amended.  [hasNextPage] returns [true] exactly when the page has a
    next-page control and the control does not carry the [disabled] class;
    it returns [false] when the control is there and disabled; when the
    control is absent it returns [null], which is falsy, so the loop reads
    it as "no next page" and nothing is raised. *)
Theorem C7_hasNextPage_result (d : Document) :
  (hasNextPage d = JBool true <->
   exists nextButton,
     next_control_of d = Some nextButton /\
     js "disabled" ∉ classList nextButton) /\
  (to_boolean (hasNextPage d) = true <-> hasNextPage d = JBool true) /\
  match next_control_of d with
  | Some nextButton =>
      nextButton ∈ d /\ aria_label nextButton = Some (js "Next page") /\
      hasNextPage d =
        JBool (bool_decide (js "disabled" ∉ classList nextButton))
  | None =>
      (forall e, e ∈ d -> aria_label e <> Some (js "Next page")) /\
      hasNextPage d = JNull /\ to_boolean (hasNextPage d) = false
  end.
Proof.
  pose proof (next_control_of_spec d) as Hspec.
  unfold hasNextPage, contains. fold (next_control_of d).
  destruct (next_control_of d) as [b|]; simpl.
  - destruct Hspec as [Hin Hl]. split_and!; try done.
    + split.
      * intros [= Hb%negb_true_iff%bool_decide_eq_false]. by exists b.
      * intros (b' & [= <-] & Hb). f_equal.
        by apply negb_true_iff, bool_decide_eq_false.
    + split; [by intros -> | by intros [= ->]].
    + f_equal. destruct (decide (js "disabled" ∈ classList b)).
      * rewrite bool_decide_eq_true_2 by done.
        by rewrite bool_decide_eq_false_2 by tauto.
      * rewrite bool_decide_eq_false_2 by done.
        by rewrite bool_decide_eq_true_2 by done.
  - split_and!; try done. split; [done | by intros (? & ? & _)].
Qed.

(** ** The file *)

(** C4. Output determinism.  Whatever the set holds, the text of the file
    is its elements put in ascending lexicographic order (by code units)
    and joined with one line feed (code unit 10) between each two: an empty
    text for the empty set, the URL alone for a set of one, and otherwise a
    text that ends with the last URL, with no line feed after it.  For the
    set of ["https://b/x.pdf"] and ["https://a/y.pdf"] the text is
    ["https://a/y.pdf"], a line feed, ["https://b/x.pdf"]. *)
Theorem C4_output_sorted_joined (allUrls : JsSet) :
  urlList allUrls = separated (sort allUrls) [10%N] /\
  (forall (x y : jsstring) (a : list jsstring),
     separated (x :: y :: a) [10%N] =
     x ++ [10%N] ++ separated (y :: a) [10%N]) /\
  (forall x : jsstring, separated [x] [10%N] = x) /\
  separated [] [10%N] = [] /\
  Sorted lexicographic_le (sort allUrls) /\
  sort allUrls ≡ₚ allUrls /\
  match last (sort allUrls) with
  | Some url => exists before, urlList allUrls = before ++ url
  | None => allUrls = [] /\ urlList allUrls = []
  end /\
  urlList [js "https://b/x.pdf"; js "https://a/y.pdf"] =
    js "https://a/y.pdf" ++ [10%N] ++ js "https://b/x.pdf" /\
  urlList [js "https://b/x.pdf"; js "https://a/y.pdf"] =
    [104; 116; 116; 112; 115; 58; 47; 47; 97; 47; 121; 46; 112; 100; 102;
     10;
     104; 116; 116; 112; 115; 58; 47; 47; 98; 47; 120; 46; 112; 100; 102]%N.
Proof.
  assert (Hjoin : urlList allUrls = separated (sort allUrls) [10%N])
    by apply join_spec.
  split_and!; [done | done | done | done
    | apply Sorted_le_lexicographic, sort_sorted
    | apply sort_perm | | reflexivity | reflexivity].
  rewrite Hjoin. pose proof (sort_perm allUrls) as Hperm.
  destruct (sort allUrls) as [|x a _] using rev_ind.
  - simpl. split; [| done]. by apply Permutation_nil_l in Hperm.
  - rewrite last_snoc. apply separated_snoc.
Qed.

(** ** The loop *)

(** C2. Safety bound.  If [hasNextPage] returns [true] on every page the
    walk comes to, the loop goes through its body 501 times and leaves by
    the safety limit: the page cursor is 501, the trace records 501 scans,
    and 501 units of fuel are needed and enough. *)
Theorem C2_safety_bound {W : Type} `{Browser W} (w : W) (fuel : nat) :
  (forall n, (n <= 500)%nat ->
     hasNextPage (document (world_at n w)) = JBool true) ->
  (501 <= fuel)%nat ->
  exists st,
    iterates (initial w) 501 LimitReached st /\
    script fuel w = Some (LimitReached, finish st) /\
    currentPage (finish st) = 501 /\
    extractions (trace (finish st)) = 501%nat /\
    Status safety_limit_status ∈ trace (finish st) /\
    (forall less, (less < 501)%nat -> script less w = None).
Proof.
  intros Hnext Hfuel.
  destruct (run_total w) as (n & t & st & Hn & Hit).
  destruct (iterates_pages _ _ _ _ Hit) as (Hn1 & Hcp & _ & _ & Ht).
  simpl in Hcp, Ht.
  assert (t = LimitReached /\ n = 501%nat) as [-> ->].
  { destruct t.
    - rewrite Hnext in Ht by lia. done.
    - split; [done | lia]. }
  exists st. split_and!; [done | by apply (script_iterates _ _ _ _ _ Hit)
    | unfold finish; cbn [currentPage]; lia | | |].
  - destruct (iterates_trace _ _ _ _ Hit) as (during & Htr & Hex & _).
    destruct (finish_trace st) as [-> _].
    rewrite Htr, extractions_app, Hex. done.
  - destruct (iterates_terminal_status _ _ _ _ Hit) as [before Htr].
    unfold finish. cbn [trace]. rewrite Htr, !elem_of_app.
    left; right. apply list_elem_of_singleton. done.
  - intros less Hless. unfold script.
    by rewrite (iterates_short_fuel _ _ _ _ less Hit Hless).
Qed.

(** C3. Termination.  If [hasNextPage] is truthy on the first [k - 1]
    pages and falsy on the [k]-th, with [k] between 1 and 501, the loop
    goes through its body [k] times and leaves because the listing is
    exhausted: the page cursor is [k], the trace records [k] scans, and
    [k] units of fuel are needed and enough. *)
Theorem C3_termination {W : Type} `{Browser W} (w : W) (k fuel : nat) :
  (1 <= k <= 501)%nat ->
  (forall j, (j + 1 < k)%nat ->
     to_boolean (hasNextPage (document (world_at j w))) = true) ->
  to_boolean (hasNextPage (document (world_at (k - 1) w))) = false ->
  (k <= fuel)%nat ->
  exists st,
    iterates (initial w) k Exhausted st /\
    script fuel w = Some (Exhausted, finish st) /\
    currentPage (finish st) = Z.of_nat k /\
    extractions (trace (finish st)) = k /\
    Status last_page_status ∈ trace (finish st) /\
    (forall less, (less < k)%nat -> script less w = None).
Proof.
  intros Hk Hbefore Hlast Hfuel.
  destruct (run_total w) as (n & t & st & Hn & Hit).
  destruct (iterates_pages _ _ _ _ Hit) as (Hn1 & Hcp & _ & Hj & Ht).
  simpl in Hcp, Hj, Ht.
  assert (n = k) as ->.
  { destruct (Nat.lt_trichotomy n k) as [Hlt | [-> | Hgt]]; [| done |].
    - destruct t.
      + rewrite Hbefore in Ht by lia. done.
      + lia.
    - destruct (Hj (k - 1)%nat) as [Htrue _]; [lia |]. congruence. }
  assert (t = Exhausted) as ->.
  { destruct t; [done |]. destruct Ht as [Htrue _]. congruence. }
  exists st. split_and!; [done | by apply (script_iterates _ _ _ _ _ Hit)
    | unfold finish; cbn [currentPage]; lia | | |].
  - destruct (iterates_trace _ _ _ _ Hit) as (during & Htr & Hex & _).
    destruct (finish_trace st) as [-> _].
    rewrite Htr, extractions_app, Hex. done.
  - destruct (iterates_terminal_status _ _ _ _ Hit) as [before Htr].
    unfold finish. cbn [trace]. rewrite Htr, !elem_of_app.
    left; right. apply list_elem_of_singleton. done.
  - intros less Hless. unfold script.
    by rewrite (iterates_short_fuel _ _ _ _ less Hit Hless).
Qed.

(** C8. The set only grows.  A pass through the loop body leaves the set
    as it was with new elements after the old ones, and every new element
    is a file URL; whenever the body is entered during a run the set holds
    file URLs only, each once, and so it does when the loop is left; what
    follows the loop reads the set for the one file it offers and leaves
    it as it is. *)
Theorem C8_set_grows {W : Type} `{Browser W} (w : W) (fuel : nat) :
  (501 <= fuel)%nat ->
  exists t st,
    main_loop fuel (initial w) = Some (t, st) /\
    script fuel w = Some (t, finish st) /\
    (forall st0 : State W, exists added,
       allUrls (step_state (loop_body st0)) = allUrls st0 ++ added /\
       Forall FileUrl added) /\
    (forall st0, entered w st0 ->
       Forall FileUrl (allUrls st0) /\ NoDup (allUrls st0) /\
       exists added, allUrls st = allUrls st0 ++ added) /\
    Forall FileUrl (allUrls st) /\
    NoDup (allUrls st) /\
    allUrls (finish st) = allUrls st /\
    downloads (trace (finish st)) = [urlList (allUrls st)].
Proof.
  intros Hfuel.
  destruct (run_total w) as (n & t & st & Hn & Hit).
  assert (Hrun : main_loop fuel (initial w) = Some (t, st))
    by (apply (iterates_main_loop _ _ _ _ _ Hit); lia).
  assert (Hentered : forall st0, entered w st0 ->
    exists m, iterates st0 m t st).
  { induction 1 as [| st0 st1 _ [m IH] Hc]; [by exists n |].
    inversion IH as [? ? ? Hb | ? st1' m' ? ? Hc' Hit']; subst.
    - congruence.
    - exists m'. congruence. }
  exists t, st.
  split_and!; [done | apply (script_iterates _ _ _ _ _ Hit); lia | | | | | done |].
  - intros st0. rewrite loop_body_allUrls. apply visit_links_extends.
  - intros st0 Hst0. destruct (entered_allUrls _ _ Hst0) as [Hf Hnd].
    split_and!; [done | done |].
    destruct (Hentered _ Hst0) as [m Hm].
    destruct (iterates_allUrls _ _ _ _ Hm) as ((added & -> & _) & _).
    by exists added.
  - destruct (iterates_allUrls _ _ _ _ Hit) as ((added & -> & Hf) & _).
    done.
  - destruct (iterates_allUrls _ _ _ _ Hit) as (_ & Hnd & _).
    apply Hnd, NoDup_nil_2.
  - destruct (finish_trace st) as (_ & -> & _).
    destruct (iterates_trace _ _ _ _ Hit) as (during & -> & _ & Hdl & _).
    rewrite downloads_app, Hdl. done.
Qed.

(** [goToNextPage] clicks a control that is there, disabled or not, though
    [hasNextPage] says no on a disabled one. *)
Example goToNextPage_clicks_disabled_control :
  let w := [[next_control [js "disabled"]]; []] in
  hasNextPage (@document _ paged_site w) = JBool false /\
  @goToNextPage _ paged_site w = (true, [[]]).
Proof. done. Qed.

(** C9. Every advance clicks.  The loop calls [goToNextPage] only on a
    pass where [hasNextPage] was truthy, and then the control is there:
    the call clicks it and returns [true], so every call recorded in the
    trace of a run clicked.  [goToNextPage] alone does not look at the
    [disabled] class: it clicks whenever the control is there, and returns
    [false] without a click only when it is absent. *)
Theorem C9_advance_clicks {W : Type} `{Browser W} (w : W) (fuel : nat) :
  (501 <= fuel)%nat ->
  exists t st,
    script fuel w = Some (t, st) /\
    all_clicked (trace st) /\
    (forall st0 st1 : State W,
       loop_body st0 = Continue st1 ->
       to_boolean (hasNextPage (document (world st0))) = true /\
       exists nextButton,
         next_control_of (document (world st0)) = Some nextButton /\
         goToNextPage (world st0) = (true, click nextButton (world st0)) /\
         world st1 = sleep 2000 (click nextButton (world st0))) /\
    (forall w0 : W,
       match next_control_of (document w0) with
       | Some nextButton => goToNextPage w0 = (true, click nextButton w0)
       | None => goToNextPage w0 = (false, w0)
       end).
Proof.
  intros Hfuel.
  destruct (run_total w) as (n & t & st & Hn & Hit).
  exists t, (finish st).
  split_and!; [apply (script_iterates _ _ _ _ _ Hit); lia | | |].
  - apply finish_trace.
    destruct (iterates_trace _ _ _ _ Hit) as (during & -> & _ & _ & Hcl).
    apply all_clicked_app; [| done].
    intros c Hc. apply list_elem_of_singleton in Hc. discriminate.
  - intros st0 st1 (Hnext & _ & Hw)%loop_body_continue.
    split; [done |].
    destruct (goToNextPage_after_hasNextPage _ Hnext) as (b & Hb & Hgo).
    exists b. split_and!; [done | done |].
    rewrite Hw. unfold next_world. by rewrite Hgo.
  - intros w0. unfold goToNextPage, next_control_of.
    by destruct (querySelector _ _).
Qed.

(** C10. The file depends on the set of file URLs only.  Two runs, in any
    two browsers, whose scanned pages link the same file URLs, however
    spread over the pages, in whatever order and however often, each offer
    one file, and the two files have the same text. *)
Theorem C10_file_depends_on_urls_only
    {W1 : Type} {B1 : Browser W1} {W2 : Type} {B2 : Browser W2}
    (w1 : W1) (w2 : W2) (fuel1 fuel2 : nat) :
  (501 <= fuel1)%nat -> (501 <= fuel2)%nat ->
  (forall url,
     encountered (pages_scanned w1) w1 url <->
     encountered (pages_scanned w2) w2 url) ->
  exists t1 st1 t2 st2,
    script fuel1 w1 = Some (t1, st1) /\
    script fuel2 w2 = Some (t2, st2) /\
    currentPage st1 = Z.of_nat (pages_scanned w1) /\
    currentPage st2 = Z.of_nat (pages_scanned w2) /\
    (forall url,
       url ∈ allUrls st1 <-> encountered (pages_scanned w1) w1 url) /\
    (forall url,
       url ∈ allUrls st2 <-> encountered (pages_scanned w2) w2 url) /\
    downloads (trace st1) = [urlList (allUrls st1)] /\
    downloads (trace st2) = [urlList (allUrls st2)] /\
    downloads (trace st1) = downloads (trace st2).
Proof.
  intros Hfuel1 Hfuel2 Hsame.
  destruct (run_total w1) as (n1 & t1 & st1 & Hn1 & Hit1).
  destruct (run_total w2) as (n2 & t2 & st2 & Hn2 & Hit2).
  rewrite (pages_scanned_iterates _ _ _ _ Hit1) in *.
  rewrite (pages_scanned_iterates _ _ _ _ Hit2) in *.
  destruct (iterates_pages _ _ _ _ Hit1) as (_ & Hcp1 & _).
  destruct (iterates_pages _ _ _ _ Hit2) as (_ & Hcp2 & _).
  destruct (iterates_allUrls _ _ _ _ Hit1) as (_ & Hnd1 & Hin1).
  destruct (iterates_allUrls _ _ _ _ Hit2) as (_ & Hnd2 & Hin2).
  destruct (iterates_trace _ _ _ _ Hit1) as (d1 & Htr1 & _ & Hdl1 & _).
  destruct (iterates_trace _ _ _ _ Hit2) as (d2 & Htr2 & _ & Hdl2 & _).
  destruct (finish_trace st1) as (_ & Hf1 & _).
  destruct (finish_trace st2) as (_ & Hf2 & _).
  rewrite Htr1, downloads_app, Hdl1 in Hf1.
  rewrite Htr2, downloads_app, Hdl2 in Hf2.
  change (downloads (trace (initial w1))) with (@nil jsstring) in Hf1.
  change (downloads (trace (initial w2))) with (@nil jsstring) in Hf2.
  simpl in Hnd1, Hnd2, Hin1, Hin2.
  assert (Hu1 : forall url, url ∈ allUrls st1 <-> encountered n1 w1 url).
  { intros url. rewrite Hin1. split; [| tauto].
    by intros [?%elem_of_nil | ?]. }
  assert (Hu2 : forall url, url ∈ allUrls st2 <-> encountered n2 w2 url).
  { intros url. rewrite Hin2. split; [| tauto].
    by intros [?%elem_of_nil | ?]. }
  exists t1, (finish st1), t2, (finish st2).
  split_and!; [apply (script_iterates _ _ _ _ _ Hit1); lia
    | apply (script_iterates _ _ _ _ _ Hit2); lia
    | exact Hcp1 | exact Hcp2 | done | done | exact Hf1 | exact Hf2 |].
  rewrite Hf1, Hf2. unfold urlList, array_from.
  rewrite (sort_unique (allUrls st1) (allUrls st2)); [done |].
  apply NoDup_Permutation.
  - apply Hnd1, NoDup_nil_2.
  - apply Hnd2, NoDup_nil_2.
  - intros url. by rewrite Hu1, Hu2.
Qed.

(** ** Concrete listings *)

(** A listing that shows [looping_page] for ever is left at page 501. *)
Lemma C2_safety_bound_looping_page :
  exists st,
    @script _ (endless_site looping_page) 501 tt =
      Some (LimitReached, st) /\
    currentPage st = 501 /\ extractions (trace st) = 501%nat /\
    @script _ (endless_site looping_page) 500 tt = None.
Proof.
  destruct (@C2_safety_bound _ (endless_site looping_page) tt 501)
    as (st & _ & Hrun & Hcp & Hex & _ & Hless).
  - intros n _. reflexivity.
  - lia.
  - exists (@finish _ st). split_and!; [done | done | done |].
    apply Hless. lia.
Defined.

(** [listing_a] has two pages: the walk ends after the second. *)
Lemma C3_termination_listing_a :
  exists st,
    @script _ paged_site 7 listing_a = Some (Exhausted, st) /\
    currentPage st = 2 /\ extractions (trace st) = 2%nat /\
    @script _ paged_site 1 listing_a = None.
Proof.
  destruct (@C3_termination _ paged_site listing_a 2 7)
    as (st & _ & Hrun & Hcp & Hex & _ & Hless).
  - lia.
  - intros [|j] Hj; [reflexivity | lia].
  - reflexivity.
  - lia.
  - exists (@finish _ st). split_and!; [done | done | done |].
    apply Hless. lia.
Defined.

Lemma C8_set_grows_listing_a :
  exists t st,
    @script _ paged_site 501 listing_a = Some (t, @finish _ st) /\
    Forall FileUrl (allUrls st) /\
    downloads (trace (@finish _ st)) = [urlList (allUrls st)].
Proof.
  destruct (@C8_set_grows _ paged_site listing_a 501)
    as (t & st & _ & Hrun & _ & _ & Hf & _ & _ & Hdl).
  - lia.
  - by exists t, st.
Defined.

Lemma C9_advance_clicks_listing_a :
  exists t st,
    @script _ paged_site 501 listing_a = Some (t, st) /\
    all_clicked (trace st).
Proof.
  destruct (@C9_advance_clicks _ paged_site listing_a 501)
    as (t & st & Hrun & Hcl & _).
  - lia.
  - by exists t, st.
Defined.

(** [listing_a] and [listing_b] link the same two files and give the same
    file. *)
Lemma C10_listing_a_listing_b :
  exists t1 st1 t2 st2,
    @script _ paged_site 501 listing_a = Some (t1, st1) /\
    @script _ paged_site 501 listing_b = Some (t2, st2) /\
    downloads (trace st1) = downloads (trace st2).
Proof.
  destruct (@C10_file_depends_on_urls_only _ paged_site _ paged_site
    listing_a listing_b 501 501)
    as (t1 & st1 & t2 & st2 & Hrun1 & Hrun2 & _ & _ & _ & _ & _ & _ & Hsame).
  - lia.
  - lia.
  - intros url. rewrite !encountered_seen.
    assert (@pages_scanned _ paged_site listing_a = 2%nat) as ->
      by reflexivity.
    assert (@pages_scanned _ paged_site listing_b = 2%nat) as ->
      by reflexivity.
    assert (@file_urls_seen _ paged_site 2 listing_a =
      [js "https://host/epstein/files/a.pdf";
       js "https://host/epstein/files/b.pdf";
       js "https://host/epstein/files/a.pdf"]) as -> by reflexivity.
    assert (@file_urls_seen _ paged_site 2 listing_b =
      [js "https://host/epstein/files/b.pdf";
       js "https://host/epstein/files/b.pdf";
       js "https://host/epstein/files/a.pdf"]) as -> by reflexivity.
    rewrite !elem_of_cons, !elem_of_nil. tauto.
  - by exists t1, st1, t2, st2.
Defined.

(** * Further properties of the walk *)

(** ** Rounds in full *)

Section Rounds.

Context {W : Type} `{Browser W}.

Implicit Types (st : State W) (w : W).

Lemma extract_count (s : JsSet) (d : Document) :
  (extractUrlsFromCurrentPage s d).2 = Z.of_nat (length (file_links d)).
Proof.
  unfold extractUrlsFromCurrentPage. rewrite visit_links_count.
  unfold file_links, candidate_links. lia.
Qed.

(** A pass that goes round: what it leaves in each variable and what it
    adds to the trace. *)
Lemma loop_body_continue_full st st1 :
  loop_body st = Continue st1 ->
  allUrls st1 =
    (extractUrlsFromCurrentPage (allUrls st) (document (world st))).1 /\
  currentPage st1 = currentPage st + 1 /\
  foundFiles st1 =
    foundFiles st + Z.of_nat (length (file_links (document (world st)))) /\
  world st1 = next_world (world st) /\
  trace st1 = trace st ++
    [Extracted (Z.of_nat (length (file_links (document (world st)))));
     Status (page_status (currentPage st + 1)
       (Z.of_nat (length (file_links (document (world st)))))
       (set_size (extractUrlsFromCurrentPage (allUrls st)
          (document (world st))).1));
     NextPage true; Slept 2000].
Proof.
  intros Hc. pose proof (loop_body_continue _ _ Hc) as (Hnext & _ & _).
  destruct (goToNextPage_after_hasNextPage _ Hnext) as (b & _ & Hgo).
  rewrite loop_body_eq in Hc. cbv zeta in Hc.
  rewrite Hgo, extract_count in Hc.
  destruct (negb _); [done |]. destruct (_ >? _); [done |].
  injection Hc as <-. cbn. rewrite <- app_assoc. done.
Qed.

(** A pass that leaves the loop. *)
Lemma loop_body_break_full st t st' :
  loop_body st = Break t st' ->
  allUrls st' =
    (extractUrlsFromCurrentPage (allUrls st) (document (world st))).1 /\
  currentPage st' = currentPage st + 1 /\
  foundFiles st' =
    foundFiles st + Z.of_nat (length (file_links (document (world st)))) /\
  world st' = world st /\
  trace st' = trace st ++
    [Extracted (Z.of_nat (length (file_links (document (world st)))));
     Status (page_status (currentPage st + 1)
       (Z.of_nat (length (file_links (document (world st)))))
       (set_size (extractUrlsFromCurrentPage (allUrls st)
          (document (world st))).1));
     Status (terminal_status t)].
Proof.
  intros Hb. rewrite loop_body_eq in Hb. cbv zeta in Hb.
  rewrite extract_count in Hb.
  destruct (negb _); [| destruct (_ >? _); [| done]];
    injection Hb as <- <-; cbn; rewrite <- app_assoc; done.
Qed.

Lemma clicks_app (tr1 tr2 : list Event) :
  clicks (tr1 ++ tr2) = (clicks tr1 + clicks tr2)%nat.
Proof.
  induction tr1 as [|e tr1 IH]; simpl; [done |].
  destruct e; simpl; by rewrite IH.
Qed.

Lemma sleeps_app (tr1 tr2 : list Event) :
  sleeps (tr1 ++ tr2) = sleeps tr1 ++ sleeps tr2.
Proof.
  induction tr1 as [|e tr1 IH]; simpl; [done |].
  destruct e; simpl; by rewrite IH.
Qed.

Lemma statuses_app (tr1 tr2 : list Event) :
  statuses (tr1 ++ tr2) = statuses tr1 ++ statuses tr2.
Proof.
  induction tr1 as [|e tr1 IH]; simpl; [done |].
  destruct e; simpl; by rewrite IH.
Qed.

(** A run of [n] rounds calls [goToNextPage] and waits [n - 1] times. *)
Lemma iterates_clicks st n t st' :
  iterates st n t st' ->
  clicks (trace st') = (clicks (trace st) + (n - 1))%nat /\
  sleeps (trace st') = sleeps (trace st) ++ replicate (n - 1) 2000.
Proof.
  induction 1 as [st t st' Hb | st st1 n t st' Hc Hit [IHc IHs]].
  - apply loop_body_break_full in Hb as (_ & _ & _ & _ & ->).
    rewrite clicks_app, sleeps_app. simpl. rewrite app_nil_r. split; lia || done.
  - pose proof (iterates_pages _ _ _ _ Hit) as (Hn & _).
    apply loop_body_continue_full in Hc as (_ & _ & _ & _ & Htr).
    rewrite IHc, IHs, Htr, clicks_app, sleeps_app.
    replace (S n - 1)%nat with (S (n - 1)) by lia.
    simpl. rewrite <- app_assoc. split; [lia | done].
Qed.

(** The counter [foundFiles] adds up the file links of the pages scanned,
    repetitions included. *)
Lemma iterates_foundFiles st n t st' :
  iterates st n t st' ->
  foundFiles st' =
    foundFiles st + Z.of_nat (length (file_urls_seen n (world st))).
Proof.
  induction 1 as [st t st' Hb | st st1 n t st' Hc Hit IH].
  - apply loop_body_break_full in Hb as (_ & _ & -> & _).
    simpl. rewrite app_nil_r, length_map. done.
  - apply loop_body_continue_full in Hc as (_ & _ & Hf & Hw & _).
    rewrite IH, Hf, Hw. simpl. rewrite length_app, length_map. lia.
Qed.

Lemma iterates_urls_after st n t st' :
  iterates st n t st' ->
  allUrls st' = urls_after n (world st) (allUrls st).
Proof.
  induction 1 as [st t st' Hb | st st1 n t st' Hc Hit IH].
  - by apply loop_body_break_full in Hb as (-> & _).
  - apply loop_body_continue_full in Hc as (Hu & _ & _ & Hw & _).
    by rewrite IH, Hu, Hw.
Qed.

Lemma urls_after_elem_of (n : nat) w (s : JsSet) (u : jsstring) :
  u ∈ urls_after n w s <-> u ∈ s \/ u ∈ file_urls_seen n w.
Proof.
  revert w s; induction n as [|n IH]; intros w s; simpl.
  - split; [by left | by intros [? | ?%elem_of_nil]].
  - rewrite IH, extract_elem_of, elem_of_app.
    pose proof (encountered_seen 1 w u) as H1. simpl in H1.
    rewrite app_nil_r in H1. rewrite <- H1, encountered_S.
    unfold encountered. split; [tauto |].
    intros [? | [[? | (j & ? & ? & _)] | ?]]; [tauto | tauto | lia | tauto].
Qed.

Lemma urls_after_NoDup (n : nat) w (s : JsSet) :
  NoDup s -> NoDup (urls_after n w s).
Proof.
  revert w s; induction n as [|n IH]; intros w s Hs; simpl; [done |].
  by apply IH, visit_links_NoDup.
Qed.

(** The size of the set after [n] pages, from the empty set: the number of
    distinct file URLs linked on them. *)
Lemma urls_after_size (n : nat) w :
  set_size (urls_after n w set_empty) =
  Z.of_nat (length (remove_dups (file_urls_seen n w))).
Proof.
  unfold set_size. f_equal. apply Permutation_length, NoDup_Permutation.
  - apply urls_after_NoDup, NoDup_nil_2.
  - apply NoDup_remove_dups.
  - intros u. rewrite urls_after_elem_of, elem_of_remove_dups.
    split; [by intros [?%elem_of_nil | ?] | by right].
Qed.

(** The status lines of a run of [n] rounds: one for each page, in turn,
    and the line that says how the loop is left. *)
Lemma iterates_statuses st n t st' :
  iterates st n t st' ->
  statuses (trace st') =
  statuses (trace st) ++
  map (fun j =>
    page_status (currentPage st + Z.of_nat j + 1)
      (Z.of_nat (length (file_links (document (world_at j (world st))))))
      (set_size (urls_after (S j) (world st) (allUrls st))))
    (seq 0 n) ++
  [terminal_status t].
Proof.
  induction 1 as [st t st' Hb | st st1 n t st' Hc Hit IH].
  - apply loop_body_break_full in Hb as (_ & _ & _ & _ & ->).
    rewrite statuses_app. simpl. by rewrite Z.add_0_r.
  - apply loop_body_continue_full in Hc as (Hu & Hcp & _ & Hw & Htr).
    rewrite IH, Htr, statuses_app, <- app_assoc. f_equal.
    simpl. rewrite Z.add_0_r. f_equal. f_equal.
    rewrite <- fmap_S_seq, <- list_fmap_compose.
    apply list_fmap_ext. intros _ j _. simpl.
    rewrite Hu, Hw, Hcp. f_equal. lia.
Qed.

End Rounds.

(** ** Counters, clicks and messages of a run *)

(** X1. The two totals of a run.  When the script ends, [foundFiles] is
    the number of file links on the pages scanned, a URL linked several
    times counted each time, and the size of the set is the number of
    distinct URLs among them, so the size never exceeds [foundFiles]. *)
Theorem X1_found_and_unique {W : Type} `{Browser W} (w : W) (fuel : nat) :
  (501 <= fuel)%nat ->
  exists t st,
    script fuel w = Some (t, st) /\
    foundFiles st =
      Z.of_nat (length (file_urls_seen (pages_scanned w) w)) /\
    set_size (allUrls st) =
      Z.of_nat (length (remove_dups (file_urls_seen (pages_scanned w) w))) /\
    set_size (allUrls st) <= foundFiles st.
Proof.
  intros Hfuel.
  destruct (run_total w) as (n & t & st & Hn & Hit).
  rewrite (pages_scanned_iterates _ _ _ _ Hit).
  pose proof (iterates_foundFiles _ _ _ _ Hit) as Hfound.
  pose proof (iterates_urls_after _ _ _ _ Hit) as Hurls.
  simpl in Hfound, Hurls.
  assert (Hsize : set_size (allUrls st) =
    Z.of_nat (length (remove_dups (file_urls_seen n w))))
    by (rewrite Hurls; apply urls_after_size).
  exists t, (finish st).
  split_and!; [apply (script_iterates _ _ _ _ _ Hit); lia | done | done |].
  cbn [finish allUrls foundFiles]. rewrite Hsize, Hfound.
  apply inj_le, submseteq_length, NoDup_submseteq.
  - apply NoDup_remove_dups.
  - intros u. by rewrite elem_of_remove_dups.
Qed.

(** X2. Clicks and waits.  A run that scans [n] pages calls
    [goToNextPage] [n - 1] times and waits [n - 1] times, 2000 ms each;
    nothing is clicked after the last scan, so the browser is left on the
    last page scanned. *)
Theorem X2_clicks_and_waits {W : Type} `{Browser W} (w : W) (fuel : nat) :
  (501 <= fuel)%nat ->
  exists t st,
    script fuel w = Some (t, st) /\
    clicks (trace st) = (pages_scanned w - 1)%nat /\
    sleeps (trace st) = replicate (pages_scanned w - 1) 2000 /\
    world st = world_at (pages_scanned w - 1) w.
Proof.
  intros Hfuel.
  destruct (run_total w) as (n & t & st & Hn & Hit).
  rewrite (pages_scanned_iterates _ _ _ _ Hit).
  destruct (iterates_clicks _ _ _ _ Hit) as [Hc Hs].
  destruct (iterates_pages _ _ _ _ Hit) as (_ & _ & Hw & _).
  exists t, (finish st).
  split_and!; [apply (script_iterates _ _ _ _ _ Hit); lia | | | done].
  - unfold finish. cbn [trace]. rewrite clicks_app, Hc. simpl. lia.
  - unfold finish. cbn [trace]. rewrite sleeps_app, Hs. simpl.
    by rewrite app_nil_r.
Qed.

(** X3. Bounds and the reason of the exit.  In any browser the script
    ends after at least one and at most 501 scans, with the page cursor at
    the number of scans.  It leaves by the safety limit exactly when it has
    scanned 501 pages and the last one still offers a next page, and
    because the listing is exhausted exactly when the last page scanned
    offers none. *)
Theorem X3_bounds_and_exit {W : Type} `{Browser W} (w : W) (fuel : nat) :
  (501 <= fuel)%nat ->
  exists t st,
    script fuel w = Some (t, st) /\
    (1 <= pages_scanned w <= 501)%nat /\
    currentPage st = Z.of_nat (pages_scanned w) /\
    extractions (trace st) = pages_scanned w /\
    (t = LimitReached <->
       pages_scanned w = 501%nat /\
       to_boolean (hasNextPage (document (world st))) = true) /\
    (t = Exhausted <->
       to_boolean (hasNextPage (document (world st))) = false).
Proof.
  intros Hfuel.
  destruct (run_total w) as (n & t & st & Hn & Hit).
  rewrite (pages_scanned_iterates _ _ _ _ Hit).
  destruct (iterates_pages _ _ _ _ Hit) as (Hn1 & Hcp & Hw & _ & Ht).
  destruct (iterates_trace _ _ _ _ Hit) as (during & Htr & Hex & _).
  simpl in Hcp, Hw, Ht.
  exists t, (finish st).
  change (world (finish st)) with (world st).
  change (currentPage (finish st)) with (currentPage st).
  rewrite Hw.
  split_and!; [apply (script_iterates _ _ _ _ _ Hit); lia | lia | lia
    | lia | | |].
  - destruct (finish_trace st) as [-> _].
    rewrite Htr, extractions_app, Hex. done.
  - destruct t.
    + split; [done |]. intros [_ Htrue]. congruence.
    + split; [intros _ | done]. split; [lia | tauto].
  - destruct t.
    + done.
    + destruct Ht as [Htrue _]. split; [done | congruence].
Qed.

(** X4. The status panel of a run.  The status lines are, in order: for
    each page scanned its number (from 1), the number of file links on it
    and the number of distinct file URLs linked up to and including it;
    then the line that says how the loop was left; then the closing line
    with the number of distinct file URLs of the whole run. *)
Theorem X4_status_lines {W : Type} `{Browser W} (w : W) (fuel : nat) :
  (501 <= fuel)%nat ->
  exists t st,
    script fuel w = Some (t, st) /\
    statuses (trace st) =
    map (fun j =>
      page_status (Z.of_nat j + 1)
        (Z.of_nat (length (file_links (document (world_at j w)))))
        (Z.of_nat (length (remove_dups (file_urls_seen (S j) w)))))
      (seq 0 (pages_scanned w)) ++
    [terminal_status t;
     done_status
       (Z.of_nat (length
          (remove_dups (file_urls_seen (pages_scanned w) w))))].
Proof.
  intros Hfuel.
  destruct (run_total w) as (n & t & st & Hn & Hit).
  rewrite (pages_scanned_iterates _ _ _ _ Hit).
  pose proof (iterates_statuses _ _ _ _ Hit) as Hst.
  pose proof (iterates_urls_after _ _ _ _ Hit) as Hurls.
  cbn [initial currentPage world allUrls trace statuses app] in Hst, Hurls.
  exists t, (finish st).
  split; [apply (script_iterates _ _ _ _ _ Hit); lia |].
  unfold finish. cbn [trace]. rewrite statuses_app, Hst. cbn [statuses].
  rewrite Hurls, urls_after_size, <- app_assoc. f_equal.
  apply list_fmap_ext. intros _ j _.
  by rewrite (urls_after_size (S j) w), Z.add_0_l.
Qed.

(** X5. The end of every run.  However the loop is left, the trace ends
    the same way: the line that says how the loop was left, the download
    of ["dataset8_urls.txt"] with the sorted list, the closing status
    line, and two console lines, the last one with the number of distinct
    file URLs and the number of pages scanned. *)
Theorem X5_closing_sequence {W : Type} `{Browser W} (w : W) (fuel : nat) :
  (501 <= fuel)%nat ->
  exists t st before,
    script fuel w = Some (t, st) /\
    downloads before = [] /\
    trace st = before ++
      [Status (terminal_status t);
       Download (js "dataset8_urls.txt") (urlList (allUrls st));
       Status (done_status (Z.of_nat (length
         (remove_dups (file_urls_seen (pages_scanned w) w)))));
       ConsoleLog (js "Complete! URLs saved to dataset8_urls.txt");
       ConsoleLog (summary_log
         (Z.of_nat (length
            (remove_dups (file_urls_seen (pages_scanned w) w))))
         (Z.of_nat (pages_scanned w)))].
Proof.
  intros Hfuel.
  destruct (run_total w) as (n & t & st & Hn & Hit).
  rewrite (pages_scanned_iterates _ _ _ _ Hit).
  destruct (iterates_terminal_status _ _ _ _ Hit) as [before Hbefore].
  destruct (iterates_trace _ _ _ _ Hit) as (during & Htr & _ & Hdl & _).
  destruct (iterates_pages _ _ _ _ Hit) as (_ & Hcp & _).
  pose proof (iterates_urls_after _ _ _ _ Hit) as Hurls.
  simpl in Hcp, Hurls.
  exists t, (finish st), before.
  split_and!; [apply (script_iterates _ _ _ _ _ Hit); lia | |].
  - assert (Hd : downloads (trace st) = []).
    { rewrite Htr, downloads_app, Hdl. done. }
    rewrite Hbefore, downloads_app in Hd.
    by apply app_eq_nil in Hd as [? _].
  - unfold finish. cbn [trace allUrls].
    rewrite Hbefore, <- app_assoc, Hcp, Z.add_0_l.
    by rewrite Hurls, urls_after_size.
Qed.

(** ** The file, read back *)

Lemma app_line_feed_inj (x y r r' : jsstring) :
  line_feed_free x -> line_feed_free y ->
  x ++ line_feed ++ r = y ++ line_feed ++ r' -> x = y /\ r = r'.
Proof.
  unfold line_feed_free, line_feed.
  revert y; induction x as [|c x IH]; intros [|d y] Hx Hy; simpl.
  - by intros [= ->].
  - intros [= <- _]. destruct Hy. left.
  - intros [= -> _]. destruct Hx. left.
  - intros [= -> Heq]. destruct (IH y) as [-> ->]; [| | done | done].
    + intros ?. apply Hx. by right.
    + intros ?. apply Hy. by right.
Qed.

(** Lines that are not empty and hold no line feed can be told apart in
    the joined text. *)
Lemma separated_line_feed_inj (l1 l2 : list jsstring) :
  Forall (fun u => u <> [] /\ line_feed_free u) l1 ->
  Forall (fun u => u <> [] /\ line_feed_free u) l2 ->
  separated l1 line_feed = separated l2 line_feed -> l1 = l2.
Proof.
  intros H1; revert l2.
  induction H1 as [|x l1 [Hx Hfx] H1 IH]; intros l2 H2 Heq.
  - destruct H2 as [|y l2 [Hy Hfy] H2]; [done |].
    simpl in Heq. destruct l2; [by destruct Hy |].
    symmetry in Heq. by apply app_eq_nil in Heq as [? _].
  - destruct H2 as [|y l2 [Hy Hfy] H2].
    + simpl in Heq. destruct l1; [by destruct Hx |].
      by apply app_eq_nil in Heq as [? _].
    + assert (Hin : forall (u v : jsstring) (r : jsstring),
        line_feed_free u -> u = v ++ line_feed ++ r -> False).
      { intros u v r Hu ->. apply Hu. rewrite elem_of_app. right. left. }
      destruct l1 as [|x2 l1], l2 as [|y2 l2].
      * simpl in Heq. by subst.
      * change (x = y ++ line_feed ++ separated (y2 :: l2) line_feed) in Heq.
        by destruct (Hin _ _ _ Hfx Heq).
      * change (x ++ line_feed ++ separated (x2 :: l1) line_feed = y) in Heq.
        symmetry in Heq. by destruct (Hin _ _ _ Hfy Heq).
      * change (x ++ line_feed ++ separated (x2 :: l1) line_feed =
                y ++ line_feed ++ separated (y2 :: l2) line_feed) in Heq.
        apply app_line_feed_inj in Heq as [-> Heq]; [| done | done].
        f_equal. by apply IH.
Qed.

Lemma FileUrl_nonempty (u : jsstring) : FileUrl u -> u <> [].
Proof. intros [_ [a ->]] Heq. by apply app_eq_nil in Heq as [_ ?]. Qed.

(** X6. The file gives the set back.  Two sets of file URLs, none with a
    line feed in it, that produce the same file text hold the same URLs:
    the text, cut at its line feeds, is the sorted list of the set. *)
Theorem X6_file_determines_set (s1 s2 : JsSet) :
  Forall FileUrl s1 -> Forall line_feed_free s1 ->
  Forall FileUrl s2 -> Forall line_feed_free s2 ->
  urlList s1 = urlList s2 ->
  sort s1 = sort s2 /\ s1 ≡ₚ s2.
Proof.
  intros Hf1 Hl1 Hf2 Hl2 Heq.
  assert (Hok : forall s, Forall FileUrl s -> Forall line_feed_free s ->
    Forall (fun u => u <> [] /\ line_feed_free u) (sort s)).
  { intros s Hf Hl. rewrite sort_perm. apply Forall_forall. intros u Hu.
    rewrite Forall_forall in Hf, Hl.
    split; [by apply FileUrl_nonempty, Hf | by apply Hl]. }
  assert (Hsort : sort s1 = sort s2).
  { unfold urlList, array_from in Heq. rewrite !join_spec in Heq.
    apply separated_line_feed_inj; auto. }
  split; [done |]. by rewrite <- (sort_perm s1), <- (sort_perm s2), Hsort.
Qed.

Lemma Sorted_le_NoDup (l : list jsstring) :
  Sorted le l -> NoDup l -> Sorted strictly_before l.
Proof.
  induction 1 as [|x l Hl IH Hhd]; intros Hnd; [constructor |].
  apply NoDup_cons in Hnd as [Hx Hnd]. constructor; [by apply IH |].
  destruct Hhd as [|y l Hxy]; constructor.
  apply le_not_less in Hxy. unfold strictly_before.
  destruct (is_less_than x y) eqn:Hlt; [done |].
  destruct Hx. rewrite (is_less_than_connex x y Hlt Hxy). left.
Qed.

Lemma lines_line_feed_free (x : jsstring) :
  line_feed_free x -> lines x = [x].
Proof.
  unfold line_feed_free. induction x as [|c x IH]; intros Hx; [done |].
  simpl. destruct (N.eqb_spec c 10) as [-> | _].
  - destruct Hx. left.
  - rewrite IH; [done |]. intros ?. apply Hx. by right.
Qed.

Lemma lines_app_line_feed (x r : jsstring) :
  line_feed_free x -> lines (x ++ [10%N] ++ r) = x :: lines r.
Proof.
  unfold line_feed_free. induction x as [|c x IH]; intros Hx; [done |].
  simpl. destruct (N.eqb_spec c 10) as [-> | _].
  - destruct Hx. left.
  - simpl in IH. rewrite IH; [done |]. intros ?. apply Hx. by right.
Qed.

(** Cutting the joined text at its line feeds gives the joined strings
    back, when there is at least one and none holds a line feed. *)
Lemma lines_separated (a : list jsstring) :
  a <> [] -> Forall line_feed_free a -> lines (separated a [10%N]) = a.
Proof.
  intros Hne Hfree. induction Hfree as [|x a Hx Ha IH]; [done |].
  destruct a as [|y a].
  - by apply lines_line_feed_free.
  - change (separated (x :: y :: a) [10%N])
      with (x ++ [10%N] ++ separated (y :: a) [10%N]).
    rewrite lines_app_line_feed by done. f_equal. by apply IH.
Qed.

Section Lines.

Context {W : Type} `{Browser W}.

(** X7. No line twice.  When no file URL linked on the scanned pages has
    a line feed in it, the lines of the file a run offers, that is its
    text cut at the line feeds, are the sorted array of the set (one empty
    line when the set is empty); they are strictly ascending, each line
    strictly before the next in the order of [sort], so no line occurs
    twice, however often the pages link a URL. *)
Theorem X7_lines_strictly_ascending (w : W) (fuel : nat) :
  (501 <= fuel)%nat ->
  (forall url, encountered (pages_scanned w) w url -> line_feed_free url) ->
  exists t st content,
    script fuel w = Some (t, st) /\
    downloads (trace st) = [content] /\
    lines content =
      match allUrls st with
      | [] => [[]]
      | _ :: _ => sort (allUrls st)
      end /\
    Sorted strictly_before (lines content) /\
    NoDup (lines content).
Proof.
  intros Hfuel Hfree.
  destruct (run_total w) as (n & t & st & Hn & Hit).
  rewrite (pages_scanned_iterates _ _ _ _ Hit) in Hfree.
  destruct (iterates_allUrls _ _ _ _ Hit) as (_ & Hnd & Hin).
  destruct (iterates_trace _ _ _ _ Hit) as (during & Htr & _ & Hdl & _).
  assert (Hnd' : NoDup (sort (allUrls st))).
  { rewrite sort_perm. apply Hnd, NoDup_nil_2. }
  assert (Hfree' : Forall line_feed_free (sort (allUrls st))).
  { rewrite sort_perm. apply Forall_forall. intros u Hu.
    apply Hfree. apply Hin in Hu as [Hu | Hu]; [| done].
    by apply elem_of_nil in Hu. }
  assert (Hlines : lines (urlList (allUrls st)) =
    match allUrls st with [] => [[]] | _ :: _ => sort (allUrls st) end).
  { unfold urlList, array_from. rewrite join_spec.
    destruct (allUrls st) as [|u s] eqn:Hs.
    - reflexivity.
    - apply lines_separated; [| done].
      intros Hnil. pose proof (sort_perm (u :: s)) as Hperm.
      rewrite Hnil in Hperm. by apply Permutation_nil_cons in Hperm. }
  exists t, (finish st), (urlList (allUrls st)).
  change (allUrls (finish st)) with (allUrls st).
  split_and!; [apply (script_iterates _ _ _ _ _ Hit); lia | | done | |].
  - destruct (finish_trace st) as (_ & -> & _).
    by rewrite Htr, downloads_app, Hdl.
  - rewrite Hlines. destruct (allUrls st).
    + repeat constructor.
    + apply Sorted_le_NoDup; [apply sort_sorted | done].
  - rewrite Hlines. destruct (allUrls st); [| done].
    apply NoDup_singleton.
Qed.

End Lines.

(** ** Scans and controls on particular pages *)

Lemma candidate_links_spec (d : Document) (link : Anchor) :
  link ∈ candidate_links d <->
  link ∈ d /\
  exists h, attr_href link = Some h /\ exists a b, h = a ++ js ".pdf" ++ b.
Proof.
  unfold candidate_links, querySelectorAll.
  rewrite list_elem_of_In, List.filter_In, <- list_elem_of_In.
  apply and_iff_compat_l. unfold matches.
  destruct (attr_href link) as [h|].
  - change (negb (eqb (js ".pdf") [])) with true.
    rewrite andb_true_l, includes_spec. split.
    + intros Hh. by exists h.
    + by intros (h' & [= <-] & Hh).
  - split; [done | by intros (h & ? & _)].
Qed.

(** X8. What a scan takes from a page.  After a scan the set holds what
    it held before and the [href] property of every anchor of the page
    whose [href] attribute, as written in the markup, contains [".pdf"] and
    whose [href] property passes the file test, and the count is the
    number of such anchors.  The attribute is tested by the selector and
    the property by the filter, so an anchor whose attribute lacks
    [".pdf"], or that has no [href] attribute, is passed over whatever its
    property says. *)
Theorem X8_selector_then_filter (allUrls : JsSet) (d : Document) :
  let r := extractUrlsFromCurrentPage allUrls d in
  (forall url, url ∈ r.1 <->
     url ∈ allUrls \/
     exists link h,
       link ∈ d /\ attr_href link = Some h /\
       (exists a b, h = a ++ js ".pdf" ++ b) /\
       href link = url /\ FileUrl url) /\
  r.2 = Z.of_nat (length (List.filter
    (fun link =>
       matches (a_href_contains (js ".pdf")) link &&
       is_file_url (href link)) d)).
Proof.
  intros r. split_and!.
  - intros url. unfold r. rewrite extract_elem_of.
    apply or_iff_compat_l. split.
    + intros (link & (Hin & h & Hh & Hpdf)%candidate_links_spec & Hu & Hf).
      by exists link, h.
    + intros (link & h & Hin & Hh & Hpdf & Hu & Hf).
      exists link. split; [| done]. apply candidate_links_spec.
      split; [done | by exists h].
  - unfold r. rewrite extract_count. f_equal. f_equal.
    unfold file_links, candidate_links, querySelectorAll.
    induction d as [|e d IH]; simpl; [done |].
    destruct (match attr_href e with Some _ => _ | None => _ end); simpl;
      [destruct (is_file_url (href e)); simpl |]; by rewrite IH.
Qed.

(** X11. A page without file links.  A scan of a page none of whose
    candidate links passes the file test returns the set as it was and the
    count 0, as it does for a page that has not loaded yet. *)
Theorem X11_page_without_file_links (allUrls : JsSet) (d : Document) :
  file_links d = [] ->
  extractUrlsFromCurrentPage allUrls d = (allUrls, 0).
Proof.
  intros Hnone.
  rewrite (surjective_pairing (extractUrlsFromCurrentPage allUrls d)).
  rewrite extract_count, Hnone. f_equal.
  apply visit_links_present. intros link Hin Hf.
  assert (Hl : link ∈ file_links d).
  { apply list_elem_of_In, List.filter_In.
    split; [by apply list_elem_of_In | done]. }
  rewrite Hnone in Hl. by apply elem_of_nil in Hl.
Qed.

Section Controls.

Context {W : Type} `{Browser W}.

(** X9. The first control decides.  On a page with several anchors
    labelled "Next page", [hasNextPage] looks at the first one in tree
    order only, and [goToNextPage] clicks that same one: what comes after
    it on the page does not matter. *)
Theorem X9_first_control_decides (w : W) (before after : list Anchor)
    (control : Anchor) :
  document w = before ++ control :: after ->
  (forall e, e ∈ before -> aria_label e <> Some (js "Next page")) ->
  aria_label control = Some (js "Next page") ->
  next_control_of (document w) = Some control /\
  hasNextPage (document w) =
    JBool (negb (contains (classList control) (js "disabled"))) /\
  goToNextPage w = (true, click control w).
Proof.
  intros Hdoc Hbefore Hcontrol.
  assert (Hfirst : next_control_of (document w) = Some control).
  { rewrite Hdoc. clear Hdoc. unfold next_control_of, querySelector.
    induction before as [|e before IH]; simpl.
    - rewrite Hcontrol. unfold eqb. by rewrite bool_decide_eq_true_2.
    - pose proof (Hbefore e ltac:(left)) as He.
      destruct (aria_label e) as [l|].
      + unfold eqb. rewrite bool_decide_eq_false_2 by congruence.
        apply IH. intros e' He'. apply Hbefore. by right.
      + apply IH. intros e' He'. apply Hbefore. by right. }
  split; [done |]. unfold hasNextPage, goToNextPage.
  unfold next_control_of in Hfirst. by rewrite Hfirst.
Qed.

End Controls.

(** ** A listing that does not move *)

Section Stuck.

Context {W : Type} `{Browser W}.

Implicit Types (w : W) (links : list Anchor).

Lemma urls_after_same (n : nat) w (s : JsSet) links :
  (forall j, (j < n)%nat ->
     candidate_links (document (world_at j w)) = links) ->
  (forall link, link ∈ links -> is_file_url (href link) = true ->
     href link ∈ s) ->
  urls_after n w s = s.
Proof.
  revert w; induction n as [|n IH]; intros w Hsame Hin; simpl; [done |].
  assert (Hscan : (extractUrlsFromCurrentPage s (document w)).1 = s).
  { unfold extractUrlsFromCurrentPage.
    fold (candidate_links (document w)).
    pose proof (Hsame 0%nat ltac:(lia)) as H0. simpl in H0.
    rewrite H0. by apply visit_links_present. }
  rewrite Hscan. apply IH; [| done].
  intros j Hj. apply (Hsame (S j)). lia.
Qed.

Lemma file_urls_seen_same (n : nat) w links :
  (forall j, (j < n)%nat ->
     candidate_links (document (world_at j w)) = links) ->
  length (file_urls_seen n w) =
  (n * length
     (List.filter (fun link => is_file_url (href link)) links))%nat.
Proof.
  revert w; induction n as [|n IH]; intros w Hsame; simpl; [done |].
  rewrite length_app, length_map, IH.
  - pose proof (Hsame 0%nat ltac:(lia)) as H0. simpl in H0.
    unfold file_links. by rewrite H0.
  - intros j Hj. apply (Hsame (S j)). lia.
Qed.

(** X10. A listing that does not move.  If every page the run scans
    shows the candidate links of the first one (a click that changes
    nothing, or content that has not loaded when the wait is over), the set
    at the end is the set after the first scan, while [foundFiles] counts
    the file links of that page once for every scan. *)
Theorem X10_unchanged_pages (w : W) (fuel : nat) :
  (501 <= fuel)%nat ->
  (forall j, (j < pages_scanned w)%nat ->
     candidate_links (document (world_at j w)) =
     candidate_links (document w)) ->
  exists t st,
    script fuel w = Some (t, st) /\
    allUrls st = (extractUrlsFromCurrentPage set_empty (document w)).1 /\
    foundFiles st =
      Z.of_nat (pages_scanned w) *
      Z.of_nat (length (file_links (document w))).
Proof.
  intros Hfuel Hsame.
  destruct (run_total w) as (n & t & st & Hn & Hit).
  rewrite (pages_scanned_iterates _ _ _ _ Hit) in *.
  pose proof (iterates_foundFiles _ _ _ _ Hit) as Hfound.
  pose proof (iterates_urls_after _ _ _ _ Hit) as Hurls.
  destruct (iterates_pages _ _ _ _ Hit) as (Hn1 & _).
  cbn [initial foundFiles world allUrls] in Hfound, Hurls.
  exists t, (finish st).
  split_and!; [apply (script_iterates _ _ _ _ _ Hit); lia | |].
  - cbn [finish allUrls]. rewrite Hurls.
    destruct n as [|n]; [lia |]. simpl.
    apply (urls_after_same _ _ _ (candidate_links (document w))).
    + intros j Hj. apply (Hsame (S j)). lia.
    + intros link Hin Hf. apply extract_elem_of. right. exists link.
      split_and!; [done | done | by apply is_file_url_spec].
  - cbn [finish foundFiles]. rewrite Hfound.
    rewrite (file_urls_seen_same _ _ _ Hsame). unfold file_links. lia.
Qed.

End Stuck.

(** ** The further properties on concrete listings *)

Lemma X1_found_and_unique_listing_a :
  exists t st,
    @script _ paged_site 501 listing_a = Some (t, st) /\
    foundFiles st = 3 /\ set_size (allUrls st) = 2.
Proof.
  destruct (@X1_found_and_unique _ paged_site listing_a 501)
    as (t & st & Hrun & Hfound & Hsize & _).
  - lia.
  - by exists t, st.
Defined.

Lemma X2_clicks_and_waits_listing_a :
  exists t st,
    @script _ paged_site 501 listing_a = Some (t, st) /\
    clicks (trace st) = 1%nat /\ sleeps (trace st) = [2000].
Proof.
  destruct (@X2_clicks_and_waits _ paged_site listing_a 501)
    as (t & st & Hrun & Hclicks & Hsleeps & _).
  - lia.
  - by exists t, st.
Defined.

Lemma X3_bounds_and_exit_listing_a :
  exists t st,
    @script _ paged_site 501 listing_a = Some (t, st) /\
    currentPage st = 2.
Proof.
  destruct (@X3_bounds_and_exit _ paged_site listing_a 501)
    as (t & st & Hrun & _ & Hcp & _).
  - lia.
  - by exists t, st.
Defined.

Lemma X4_status_lines_listing_a :
  exists t st,
    @script _ paged_site 501 listing_a = Some (t, st) /\
    statuses (trace st) =
      [js "Page 1: Found 1 files (Total: 1 unique URLs)";
       js "Page 2: Found 2 files (Total: 2 unique URLs)";
       last_page_status;
       done_status 2].
Proof.
  destruct (@X4_status_lines _ paged_site listing_a 501)
    as (t & st & Hrun & Hst).
  - lia.
  - exists t, st. split; [done |]. rewrite Hst.
    assert (t = Exhausted) as -> by (vm_compute in Hrun; congruence).
    reflexivity.
Defined.

Lemma X5_closing_sequence_listing_a :
  exists t st, @script _ paged_site 501 listing_a = Some (t, st).
Proof.
  destruct (@X5_closing_sequence _ paged_site listing_a 501)
    as (t & st & before & Hrun & _).
  - lia.
  - by exists t, st.
Defined.

Lemma X6_file_determines_set_two_orders :
  [js "https://host/epstein/files/b.pdf";
   js "https://host/epstein/files/a.pdf"] ≡ₚ
  [js "https://host/epstein/files/a.pdf";
   js "https://host/epstein/files/b.pdf"].
Proof.
  apply (X6_file_determines_set
    [js "https://host/epstein/files/b.pdf";
     js "https://host/epstein/files/a.pdf"]
    [js "https://host/epstein/files/a.pdf";
     js "https://host/epstein/files/b.pdf"]).
  - repeat constructor; by apply is_file_url_spec.
  - repeat constructor; by apply (bool_decide_unpack _).
  - repeat constructor; by apply is_file_url_spec.
  - repeat constructor; by apply (bool_decide_unpack _).
  - reflexivity.
Defined.

Lemma X7_lines_strictly_ascending_listing_b :
  exists t st content,
    @script _ paged_site 501 listing_b = Some (t, st) /\
    downloads (trace st) = [content] /\
    lines content =
      [js "https://host/epstein/files/a.pdf";
       js "https://host/epstein/files/b.pdf"].
Proof.
  destruct (@X7_lines_strictly_ascending _ paged_site listing_b 501)
    as (t & st & content & Hrun & Hdl & Hlines & _).
  - lia.
  - intros url Hin. apply encountered_seen in Hin.
    assert (@pages_scanned _ paged_site listing_b = 2%nat) as Hn
      by reflexivity.
    rewrite Hn in Hin.
    assert (@file_urls_seen _ paged_site 2 listing_b =
      [js "https://host/epstein/files/b.pdf";
       js "https://host/epstein/files/b.pdf";
       js "https://host/epstein/files/a.pdf"]) as Hseen by reflexivity.
    rewrite Hseen in Hin.
    repeat (apply elem_of_cons in Hin as [-> | Hin];
      [by apply (bool_decide_unpack _) |]).
    by apply elem_of_nil in Hin.
  - exists t, st, content. split_and!; [done | done |].
    rewrite Hlines. vm_compute in Hrun. injection Hrun as _ <-.
    reflexivity.
Defined.

(** A page with a disabled pager before an enabled one: the walk stops. *)
Lemma X9_first_control_decides_two_pagers :
  hasNextPage
    [next_control [js "disabled"];
     file_link "https://host/epstein/files/a.pdf";
     next_control []] = JBool false.
Proof.
  apply (@X9_first_control_decides _ paged_site
    [[next_control [js "disabled"];
      file_link "https://host/epstein/files/a.pdf";
      next_control []]]
    [] [file_link "https://host/epstein/files/a.pdf"; next_control []]
    (next_control [js "disabled"])).
  - reflexivity.
  - by intros e ?%elem_of_nil.
  - reflexivity.
Defined.

(** A listing that shows [looping_page] for ever: one URL, found 501
    times. *)
Lemma X10_unchanged_pages_looping_page :
  exists t st,
    @script _ (endless_site looping_page) 501 tt = Some (t, st) /\
    allUrls st = [js "https://host/epstein/files/a.pdf"] /\
    foundFiles st = 501.
Proof.
  destruct (@X10_unchanged_pages _ (endless_site looping_page) tt 501)
    as (t & st & Hrun & Hurls & Hfound).
  - lia.
  - intros j _. reflexivity.
  - exists t, st. split_and!; [done | done |].
    rewrite Hfound.
    assert (@pages_scanned _ (endless_site looping_page) tt = 501%nat) as ->
      by (vm_compute; reflexivity).
    reflexivity.
Defined.

Lemma X11_page_without_file_links_other_path :
  extractUrlsFromCurrentPage
    [js "https://host/epstein/files/a.pdf"]
    [file_link "https://host/other/c.pdf"; next_control []] =
  ([js "https://host/epstein/files/a.pdf"], 0).
Proof. by apply X11_page_without_file_links. Defined.
